(** * SnapBox server: the device-event broadcaster of [snapbox/server.py]

    A shallow embedding of the part of [SnapBoxServer] that tracks the
    camera's USB connection and pushes it to the open websockets:
    [udev_init], [usb_device_event], [add_websocket], [remove_websocket],
    [send_init_event_to_websocket] and [send_msg_to_websockets].

    The methods mutate [self] and call collaborators (the camera, the
    websocket handlers, [logging], pyudev).  They are written here in a
    state-and-exception monad over one record holding the attributes of
    [self] and the part of the environment the methods touch; every call to
    a collaborator is appended to a trace. *)

From Stdlib Require Import String Ascii List Arith Lia.
From stdpp Require Import base decidable list gmap strings.

Import ListNotations.
Local Open Scope string_scope.
Local Open Scope list_scope.

(** ** Python strings and [json.dumps] *)

Module Json.

(** The values that occur in the dictionaries of [server.py]: [str] and
    [bool]. *)
Inductive pyval : Type :=
| PyStr (s : string)
| PyBool (b : bool).

(** A [dict] with [str] keys; Python dictionaries keep insertion order. *)
Definition pydict : Type := list (string * pyval).

Definition dquote : string := String "034"%char EmptyString.
Definition backslash : string := String "092"%char EmptyString.

Definition hex_digit (n : nat) : ascii :=
  match n with
  | 0 => "0" | 1 => "1" | 2 => "2" | 3 => "3" | 4 => "4" | 5 => "5"
  | 6 => "6" | 7 => "7" | 8 => "8" | 9 => "9" | 10 => "a" | 11 => "b"
  | 12 => "c" | 13 => "d" | 14 => "e" | _ => "f"
  end%char.

(** The four-digit lower-case hexadecimal escape of a code point below
    256. *)
Definition u_escape (n : nat) : string :=
  String.append backslash
    (String "u" (String "0" (String "0"
       (String (hex_digit (n / 16)) (String (hex_digit (n mod 16)) EmptyString))))).

(** One character of [py_encode_basestring_ascii]: the double quote, the
    backslash and every character outside the range from space to tilde
    are replaced, by the entry of [ESCAPE_DCT] when there is one and by a
    four-digit unicode escape otherwise. *)
Definition escape_char (c : ascii) : string :=
  let n := nat_of_ascii c in
  if Nat.eqb n 34 then String.append backslash dquote
  else if Nat.eqb n 92 then String.append backslash backslash
  else if Nat.eqb n 10 then String.append backslash "n"
  else if Nat.eqb n 13 then String.append backslash "r"
  else if Nat.eqb n 9 then String.append backslash "t"
  else if Nat.eqb n 12 then String.append backslash "f"
  else if Nat.eqb n 8 then String.append backslash "b"
  else if (Nat.ltb n 32 || Nat.ltb 126 n)%bool then u_escape n
  else String c EmptyString.

Fixpoint escape (s : string) : string :=
  match s with
  | EmptyString => EmptyString
  | String c rest => String.append (escape_char c) (escape rest)
  end.

Definition dumps_str (s : string) : string :=
  String.append dquote (String.append (escape s) dquote).

Definition dumps_val (v : pyval) : string :=
  match v with
  | PyStr s => dumps_str s
  | PyBool true => "true"
  | PyBool false => "false"
  end.

Definition dumps_item (kv : string * pyval) : string :=
  String.append (dumps_str (fst kv)) (String.append ": " (dumps_val (snd kv))).

(** [', '.join(items)] *)
Fixpoint join_items (items : list string) : string :=
  match items with
  | [] => EmptyString
  | [x] => x
  | x :: rest => String.append x (String.append ", " (join_items rest))
  end.

(** [json.dumps(d)] with the default separators [(', ', ': ')]. *)
Definition dumps (d : pydict) : string :=
  String.append "{" (String.append (join_items (map dumps_item d)) "}").

End Json.

(** ** Collaborators *)

(** [lib.camera.Camera] is not part of this file; the server only calls
    [load()], which probes the device again, and [get_connect()], which
    reads the result of the last probe. *)
Class CameraApi : Type := {
  Camera : Type;
  load : Camera -> Camera;
  get_connect : Camera -> bool;
}.

(** Modelled from the spec: a device state with the two parts the spec
    gives it, what a probe would find now and what the last probe found;
    [load] probes and stores, [get_connect] reads the stored value. *)
Record ProbeCamera : Type := {
  plugged : bool;
  connected : bool;
}.

Definition probe_camera : CameraApi :=
  {| Camera := ProbeCamera;
     load := fun c => {| plugged := plugged c; connected := plugged c |};
     get_connect := connected |}.

(** A websocket handler object.  [websocket in self.websockets] compares
    handlers with [==], which for these objects is identity; a handler is
    its identity. *)
Definition WebSocket : Type := nat.

(** [pyudev.Device] as the monitor's filter and the callback read it.
    [action] and [device_type] are [None] when udev does not report them. *)
Record Device : Type := {
  subsystem : string;
  action : option string;
  device_type : option string;
  device_path : string;
}.

(** A [MonitorObserver]: a thread object with a name, listening on a
    monitor filtered by subsystem, and calling [usb_device_event]. *)
Record Observer : Type := {
  obs_id : nat;
  obs_name : string;
  obs_subsystem : string;
}.

Inductive exn : Type :=
| WebSocketClosedError.

(** Calls to collaborators, in the order they are made. *)
Inductive Effect : Type :=
| LogInfo (line : string)
| CameraLoad
| WriteMessage (ws : WebSocket) (payload : string)
| WriteFailed (ws : WebSocket) (payload : string)
| ObserverStart (ob : Observer).

Inductive result (A : Type) : Type :=
| Ok (a : A)
| Raise (e : exn).

Arguments Ok {A} a.
Arguments Raise {A} e.

Section Server.

Context {camera_api : CameraApi}.

(** ** State *)

Record State : Type := {
  (* attributes of [self] *)
  camera : Camera;
  websockets : list WebSocket;
  observer_usb : option Observer;
  (* environment *)
  closed : WebSocket -> bool;
  started : list Observer;
  trace : list Effect;
}.

Definition set_camera (c : Camera) (st : State) : State :=
  {| camera := c; websockets := websockets st; observer_usb := observer_usb st;
     closed := closed st; started := started st; trace := trace st |}.

Definition set_websockets (l : list WebSocket) (st : State) : State :=
  {| camera := camera st; websockets := l; observer_usb := observer_usb st;
     closed := closed st; started := started st; trace := trace st |}.

Definition emit (e : Effect) (st : State) : State :=
  {| camera := camera st; websockets := websockets st;
     observer_usb := observer_usb st;
     closed := closed st; started := started st; trace := trace st ++ [e] |}.

(** Appending a block of effects to the trace. *)
Definition add_trace (es : list Effect) (st : State) : State :=
  {| camera := camera st; websockets := websockets st;
     observer_usb := observer_usb st;
     closed := closed st; started := started st; trace := trace st ++ es |}.

(** ** The monad: state that survives a raised exception *)

Definition M (A : Type) : Type := State -> result A * State.

Definition ret {A} (a : A) : M A := fun st => (Ok a, st).

Definition bind {A B} (m : M A) (k : A -> M B) : M B :=
  fun st =>
    match m st with
    | (Ok a, st') => k a st'
    | (Raise e, st') => (Raise e, st')
    end.

Definition raise {A} (e : exn) : M A := fun st => (Raise e, st).
Definition get : M State := fun st => (Ok st, st).
Definition modify (f : State -> State) : M unit := fun st => (Ok tt, f st).

Notation "'let*' x ':=' m 'in' k" := (bind m (fun x => k))
  (at level 10, x name, m at level 100, k at level 200).
Notation "m ;;; k" := (bind m (fun _ => k))
  (at level 100, k at level 200, right associativity).

(** [for x in l: body(x)], for a body that leaves [l] alone. *)
Fixpoint for_each {A} (l : list A) (body : A -> M unit) : M unit :=
  match l with
  | [] => ret tt
  | x :: rest => body x ;;; for_each rest body
  end.

(** ** Calls to collaborators *)

Definition logging_info (line : string) : M unit := modify (emit (LogInfo line)).

(** [self.camera.load()] *)
Definition camera_load : M unit :=
  modify (fun st => emit CameraLoad (set_camera (load (camera st)) st)).

(** [self.camera.get_connect()] *)
Definition camera_get_connect : M bool := fun st => (Ok (get_connect (camera st)), st).

(** [websocket.write_message(payload)]: tornado raises
    [WebSocketClosedError] when the connection is gone or closing, and
    queues the frame otherwise. *)
Definition write_message (ws : WebSocket) (payload : string) : M unit :=
  let* st := get in
  if closed st ws
  then modify (emit (WriteFailed ws payload)) ;;; raise WebSocketClosedError
  else modify (emit (WriteMessage ws payload)).

(** ** The methods of [SnapBoxServer] *)

(** The dictionary built in [usb_device_event] and in
    [send_init_event_to_websocket]. *)
Definition state_event (value : bool) : Json.pydict :=
  [ ("event", Json.PyStr "update");
    ("type", Json.PyStr "state");
    ("mutation", Json.PyStr "camera/setIsConnected");
    ("value", Json.PyBool value) ].

Definition send_msg_to_websockets (msg_json : Json.pydict) : M unit :=
  let* st := get in
  for_each (websockets st) (fun websocket =>
    write_message websocket (Json.dumps msg_json)).

Definition send_init_event_to_websocket (websocket : WebSocket) : M unit :=
  let* value := camera_get_connect in
  let events := [ state_event value ] in
  for_each events (fun event => write_message websocket (Json.dumps event)).

(** [x in l] for a Python list of handlers. *)
Definition py_in (x : WebSocket) (l : list WebSocket) : bool :=
  existsb (Nat.eqb x) l.

(** [l.remove(x)]: drops the first occurrence; the caller has checked
    that there is one. *)
Fixpoint py_remove (x : WebSocket) (l : list WebSocket) : list WebSocket :=
  match l with
  | [] => []
  | y :: rest => if Nat.eqb x y then rest else y :: py_remove x rest
  end.

Definition add_websocket (websocket : WebSocket) : M unit :=
  let* st := get in
  if negb (py_in websocket (websockets st))
  then modify (fun st => set_websockets (websockets st ++ [websocket]) st) ;;;
       send_init_event_to_websocket websocket
  else ret tt.

Definition remove_websocket (websocket : WebSocket) : M unit :=
  let* st := get in
  if py_in websocket (websockets st)
  then modify (fun st => set_websockets (py_remove websocket (websockets st)) st)
  else ret tt.

(** [x in ["add", "remove"]] for an attribute that may be [None]. *)
Definition in_add_remove (a : option string) : bool :=
  match a with
  | Some s => (String.eqb s "add" || String.eqb s "remove")%bool
  | None => false
  end.

Definition is_usb_interface (t : option string) : bool :=
  match t with
  | Some s => String.eqb s "usb_interface"
  | None => false
  end.

(** The guard of [usb_device_event]. *)
Definition qualifies (device : Device) : bool :=
  (in_add_remove (action device) && is_usb_interface (device_type device))%bool.

(** [str.format] of an attribute: [None] prints as ["None"]. *)
Definition fmt (a : option string) : string :=
  match a with
  | Some s => s
  | None => "None"
  end.

Definition usb_device_event (device : Device) : M unit :=
  if qualifies device
  then logging_info (String.append "background event "
                       (String.append (fmt (action device))
                          (String.append ": " (device_path device)))) ;;;
       camera_load ;;;
       let* value := camera_get_connect in
       send_msg_to_websockets (state_event value)
  else ret tt.

(** The state a qualifying event leaves for the broadcast: one log line,
    then the probe. *)
Definition refreshed (device : Device) (st : State) : State :=
  emit CameraLoad
    (set_camera (load (camera st))
       (emit (LogInfo (String.append "background event "
                         (String.append (fmt (action device))
                            (String.append ": " (device_path device))))) st)).

(** [udev_init]: a new monitor on the [usb] subsystem, a new observer
    thread on it, stored in [self.observer_usb] and started. *)
Definition udev_init : M unit :=
  let* st := get in
  let ob := {| obs_id := length (started st);
               obs_name := "usb-monitor-observer";
               obs_subsystem := "usb" |} in
  modify (fun st =>
    {| camera := camera st; websockets := websockets st;
       observer_usb := Some ob;
       closed := closed st; started := started st; trace := trace st |}) ;;;
  modify (fun st =>
    emit (ObserverStart ob)
      {| camera := camera st; websockets := websockets st;
         observer_usb := observer_usb st;
         closed := closed st; started := started st ++ [ob];
         trace := trace st |}).

(** [SnapBoxServer.__init__] from the point where the collaborators are
    built: the registry starts empty and [udev_init] is called once.  The
    environment is whatever the process has at that point. *)
Definition init (cam : Camera) (env_closed : WebSocket -> bool)
    (env_started : list Observer) (env_trace : list Effect) : result unit * State :=
  udev_init {| camera := cam; websockets := []; observer_usb := None;
               closed := env_closed; started := env_started; trace := env_trace |}.

Fixpoint udev_init_times (n : nat) (st : State) : State :=
  match n with
  | 0 => st
  | S k => udev_init_times k (snd (udev_init st))
  end.

(** ** Reading the trace *)

(** The frames queued on [w], oldest first. *)
Fixpoint delivered_to (w : WebSocket) (tr : list Effect) : list string :=
  match tr with
  | [] => []
  | WriteMessage w' payload :: rest =>
      if Nat.eqb w w' then payload :: delivered_to w rest else delivered_to w rest
  | _ :: rest => delivered_to w rest
  end.

(** The handlers that got a frame, oldest first. *)
Fixpoint recipients (tr : list Effect) : list WebSocket :=
  match tr with
  | [] => []
  | WriteMessage w _ :: rest => w :: recipients rest
  | _ :: rest => recipients rest
  end.

(** The payloads handed to [write_message], whether the call raised or
    not. *)
Fixpoint payloads (tr : list Effect) : list string :=
  match tr with
  | [] => []
  | WriteMessage _ payload :: rest => payload :: payloads rest
  | WriteFailed _ payload :: rest => payload :: payloads rest
  | _ :: rest => payloads rest
  end.

(** What one pass of the loop of [send_msg_to_websockets] adds to the
    trace: a frame per handler up to the first closed one, where the call
    raises. *)
Fixpoint broadcast_effects (is_closed : WebSocket -> bool) (payload : string)
    (l : list WebSocket) : list Effect :=
  match l with
  | [] => []
  | w :: rest =>
      if is_closed w then [WriteFailed w payload]
      else WriteMessage w payload :: broadcast_effects is_closed payload rest
  end.

Definition broadcast_result (is_closed : WebSocket -> bool) (l : list WebSocket)
    : result unit :=
  if existsb is_closed l then Raise WebSocketClosedError else Ok tt.

(** ** Sequences of calls on the registry *)

Inductive Call : Type :=
| CallAdd (w : WebSocket)
| CallRemove (w : WebSocket)
| CallBroadcast (msg_json : Json.pydict).

Definition run_call (c : Call) : M unit :=
  match c with
  | CallAdd w => add_websocket w
  | CallRemove w => remove_websocket w
  | CallBroadcast msg_json => send_msg_to_websockets msg_json
  end.

(** Each call is made by its own caller (a connection handler, the observer
    thread); an exception ends that call and the next one runs on the state
    it left. *)
Fixpoint run_calls (cs : list Call) (st : State) : State :=
  match cs with
  | [] => st
  | c :: rest => run_calls rest (snd (run_call c st))
  end.

(** The registry as the specification words it: a set, [add] an insert,
    [remove] a delete, [broadcast] no change. *)
Definition spec_call (c : Call) (s : gset nat) : gset nat :=
  match c with
  | CallAdd w => {[ w ]} ∪ s
  | CallRemove w => s ∖ {[ w ]}
  | CallBroadcast _ => s
  end.

Fixpoint spec_calls (cs : list Call) (s : gset nat) : gset nat :=
  match cs with
  | [] => s
  | c :: rest => spec_calls rest (spec_call c s)
  end.

(** ** The broadcast loop next to the connection handlers

    [usb_device_event] runs in the observer's thread, [add_websocket] and
    [remove_websocket] in the callbacks of the connection handlers, and
    the observer's thread can be pre-empted between any two operations on
    the shared list.  The loop [for websocket in self.websockets] holds a list
    iterator: [next] compares its index with the current length of the
    list, reads the item at the index and moves the index on; the body then
    calls [write_message] on the item that was read.  These are two steps.
    In [add_websocket] the append and the initialisation are two steps as
    well.  A membership test and the append or the removal that follows it
    are one step: nothing else in the program writes the list in
    between. *)

Inductive Loop : Type :=
| Running (index : nat)
| Holding (index : nat) (websocket : WebSocket)
| Finished
| Aborted (e : exn).

Record Conc : Type := {
  shared : State;
  (* the observer's thread: the iterator, the item in hand, the message *)
  loop : Loop;
  sending : string;
  (* the handlers the body has written to *)
  reached : list WebSocket;
  (* the handlers that were appended and not yet initialised *)
  initialising : list WebSocket;
}.

Inductive Action : Type :=
| ActAppend (w : WebSocket)
| ActInit (w : WebSocket)
| ActRemove (w : WebSocket)
| ActLoop.

Definition with_shared (st : State) (c : Conc) : Conc :=
  {| shared := st; loop := loop c; sending := sending c; reached := reached c;
     initialising := initialising c |}.

(** The next step of the observer's thread: [next] on the iterator, or the
    body on the item in hand. *)
Definition loop_step (c : Conc) : Conc :=
  match loop c with
  | Running i =>
      match websockets (shared c) !! i with
      | Some w =>
          {| shared := shared c; loop := Holding (S i) w;
             sending := sending c; reached := reached c;
             initialising := initialising c |}
      | None =>
          {| shared := shared c; loop := Finished;
             sending := sending c; reached := reached c;
             initialising := initialising c |}
      end
  | Holding i w =>
      match write_message w (sending c) (shared c) with
      | (Ok _, st') =>
          {| shared := st'; loop := Running i;
             sending := sending c; reached := reached c ++ [w];
             initialising := initialising c |}
      | (Raise e, st') =>
          {| shared := st'; loop := Aborted e;
             sending := sending c; reached := reached c;
             initialising := initialising c |}
      end
  | _ => c
  end.

(** The first step of [add_websocket]: the test and the append. *)
Definition append_step (w : WebSocket) (c : Conc) : Conc :=
  if negb (py_in w (websockets (shared c)))
  then {| shared := set_websockets (websockets (shared c) ++ [w]) (shared c);
          loop := loop c; sending := sending c; reached := reached c;
          initialising := initialising c ++ [w] |}
  else c.

(** Its second step, for a handler that was appended:
    [send_init_event_to_websocket]. *)
Definition init_step (w : WebSocket) (c : Conc) : Conc :=
  if py_in w (initialising c)
  then {| shared := snd (send_init_event_to_websocket w (shared c));
          loop := loop c; sending := sending c; reached := reached c;
          initialising := py_remove w (initialising c) |}
  else c.

Definition conc_step (a : Action) (c : Conc) : Conc :=
  match a with
  | ActAppend w => append_step w c
  | ActInit w => init_step w c
  | ActRemove w => with_shared (snd (remove_websocket w (shared c))) c
  | ActLoop => loop_step c
  end.

Fixpoint run_schedule (sched : list Action) (c : Conc) : Conc :=
  match sched with
  | [] => c
  | a :: rest => run_schedule rest (conc_step a c)
  end.

(** The loop of [send_msg_to_websockets msg_json] about to start, no
    initialisation outstanding. *)
Definition start_broadcast (msg_json : Json.pydict) (st : State) : Conc :=
  {| shared := st; loop := Running 0;
     sending := Json.dumps msg_json; reached := []; initialising := [] |}.










End Server.

(** ** Concrete servers, for the examples *)

Module Demo.

(** A server over [probe_camera]: the device is plugged, the last probe
    (made before it was) found nothing. *)
Definition server (l : list WebSocket) (is_closed : WebSocket -> bool)
    : @State probe_camera :=
  {| camera := ({| plugged := true; connected := false |} : @Camera probe_camera);
     websockets := l; observer_usb := None;
     closed := is_closed; started := []; trace := [] |}.

Definition all_open : WebSocket -> bool := fun _ => false.

Definition only_closed (w : WebSocket) : WebSocket -> bool := fun x => Nat.eqb x w.

Definition usb_add : Device :=
  {| subsystem := "usb"; action := Some "add";
     device_type := Some "usb_interface"; device_path := "/devices/usb1/1-1" |}.

Definition usb_change : Device :=
  {| subsystem := "usb"; action := Some "change";
     device_type := Some "usb_interface"; device_path := "/devices/usb1/1-1" |}.

End Demo.

(** The wire schema as the interface description gives it: four keys in
    this order, three constant values, then the boolean. *)
Definition quoted (s : string) : string :=
  String.append Json.dquote (String.append s Json.dquote).

Definition wire_schema (value : bool) : string :=
  String.append "{" (String.append (quoted "event") (String.append ": "
  (String.append (quoted "update") (String.append ", "
  (String.append (quoted "type") (String.append ": "
  (String.append (quoted "state") (String.append ", "
  (String.append (quoted "mutation") (String.append ": "
  (String.append (quoted "camera/setIsConnected") (String.append ", "
  (String.append (quoted "value") (String.append ": "
  (String.append (if value then "true" else "false") "}"))))))))))))))).

(** ** Command line, settings and logging set-up *)

(** The dictionary docopt builds from the usage text of [main], at the
    three flags the program reads. *)
Record Args : Type := {
  arg_debug : bool;
  arg_stdout : bool;
  arg_autoreload : bool;
}.

(** Values of the [settings] dictionary of [__init__]. *)
Inductive Setting : Type :=
| SBool (b : bool)
| SInt (n : Z)
| SErrorBadUriHandler
| SDict (items : list (string * Z)).

(** [dict(autoreload=..., debug=..., default_handler_class=...,
    default_handler_args=dict(status_code=404), websocket_ping_interval=60)] *)
Definition init_settings (args : Args) : list (string * Setting) :=
  [ ("autoreload", SBool (arg_autoreload args));
    ("debug", SBool (arg_debug args));
    ("default_handler_class", SErrorBadUriHandler);
    ("default_handler_args", SDict [("status_code", 404%Z)]);
    ("websocket_ping_interval", SInt 60) ].

(** [key in d] for a dictionary with string keys. *)
Definition has_key {V : Type} (key : string) (d : list (string * V)) : bool :=
  existsb (fun kv => String.eqb key (fst kv)) d.

(** [logging] levels: the two [parse_args] sets, and the level the root
    logger has before. *)
Inductive Level : Type :=
| DEBUG
| INFO
| WARNING.

Inductive HandlerKind : Type :=
| StreamHandler_stdout
| FileHandler (filename : string) (mode : string).

(** [AppLogFormatter(fmt, logging_pretty=...)] *)
Record Formatter : Type := {
  fmt_string : string;
  logging_pretty : bool;
}.

(** A [logging.Handler]: a new one has level [NOTSET] and no formatter. *)
Record LogHandler : Type := {
  kind : HandlerKind;
  handler_level : option Level;
  formatter : option Formatter;
}.

(** The root logger, and the files opened for logging so far. *)
Record Logging : Type := {
  root_level : Level;
  root_handlers : list LogHandler;
  opened : list (string * string);
}.

Inductive os_result (A : Type) : Type :=
| Done (a : A)
| OSError
| KeyError (key : string).

Arguments Done {A} a.
Arguments OSError {A}.
Arguments KeyError {A} key.

(** [conf.get("log_path", "server.log") if conf else "server.log"]: [conf]
    is [None] or a mapping, and a mapping is true when it is not empty. *)
Definition log_path_of (conf : option (gmap string string)) : string :=
  match conf with
  | Some m =>
      if decide (m = ∅) then "server.log"
      else match m !! "log_path" with
           | Some p => p
           | None => "server.log"
           end
  | None => "server.log"
  end.

Definition log_format : string :=
  "%(asctime)s - %(name)s - %(levelname)s - %(message)s".

(** [parse_args(args, conf)].  [can_open] says which files [FileHandler]
    can open for appending; when it cannot, its constructor raises. *)
Definition parse_args (args : Args) (conf : option (gmap string string))
    (can_open : string -> bool) (lg : Logging) : os_result unit * Logging :=
  let log_path := log_path_of conf in
  let made :=
    if arg_stdout args
    then (Done StreamHandler_stdout, opened lg)
    else if can_open log_path
         then (Done (FileHandler log_path "a+"), opened lg ++ [(log_path, "a+")])
         else (OSError, opened lg) in
  match made with
  | (Done k, files) =>
      let level := if arg_debug args then DEBUG else INFO in
      let h := {| kind := k; handler_level := Some level;
                  formatter := Some {| fmt_string := log_format;
                                       logging_pretty := true |} |} in
      (Done tt,
       {| root_level := level; root_handlers := root_handlers lg ++ [h];
          opened := files |})
  | (OSError, _) => (OSError, lg)
  | (KeyError k, _) => (KeyError k, lg)
  end.

Fixpoint parse_args_times (n : nat) (args : Args) (conf : option (gmap string string))
    (can_open : string -> bool) (lg : Logging) : Logging :=
  match n with
  | 0 => lg
  | S k => parse_args_times k args conf can_open (snd (parse_args args conf can_open lg))
  end.

(** ** [log_request] *)

Section LogRequest.

(** Python floats: the request time in seconds, and [1000.0 * x]. *)
Variable Float : Type.
Variable times_1000 : Float -> Float.

Inductive LogMethod : Type :=
| access_log_info
| access_log_warning
| access_log_error.

Inductive LogArg : Type :=
| ArgInt (n : Z)
| ArgStr (s : string)
| ArgFloat (x : Float).

(** The request handler as [log_request] reads it. *)
Record RequestHandler : Type := {
  get_status : Z;
  request_summary : string;
  request_time : Float;
  exc_name : option string;
  action_name : option string;
}.

Inductive LogCall : Type :=
| LogFunction (handler : RequestHandler)
| AccessLog (method : LogMethod) (format : string) (args : list LogArg).

(** Truth value of an attribute that is [None] or a string. *)
Definition truthy (a : option string) : bool :=
  match a with
  | Some s => negb (String.eqb s "")
  | None => false
  end.

Definition text (a : option string) : string :=
  match a with
  | Some s => s
  | None => ""
  end.

(** [log_request(self, handler)], as the calls it makes. *)
Definition log_request {V : Type} (settings : list (string * V))
    (handler : RequestHandler) : list LogCall :=
  if has_key "log_function" settings then [LogFunction handler]
  else
    let log_method :=
      if (get_status handler <? 400)%Z then access_log_info
      else if (get_status handler <? 500)%Z then access_log_warning
      else access_log_error in
    let request_time := times_1000 (request_time handler) in
    if truthy (exc_name handler)
    then [AccessLog log_method "%d %s %.2fms - %s "
            [ArgInt (get_status handler); ArgStr (request_summary handler);
             ArgFloat request_time; ArgStr (text (exc_name handler))]]
    else if truthy (action_name handler)
    then [AccessLog log_method "%d %s %.2fms - %s"
            [ArgInt (get_status handler); ArgStr (request_summary handler);
             ArgFloat request_time; ArgStr (text (action_name handler))]]
    else [AccessLog log_method "%d %s %.2fms - Ok"
            [ArgInt (get_status handler); ArgStr (request_summary handler);
             ArgFloat request_time]].

End LogRequest.

Arguments ArgInt {Float} n.
Arguments ArgStr {Float} s.
Arguments ArgFloat {Float} x.
Arguments get_status {Float} r.
Arguments request_summary {Float} r.
Arguments request_time {Float} r.
Arguments exc_name {Float} r.
Arguments action_name {Float} r.
Arguments LogFunction {Float} handler.
Arguments AccessLog {Float} method format args.
Arguments log_request {Float} times_1000 {V} settings handler.

(** The conversion specifiers of a format string without [%%]: one per
    percent sign. *)
Fixpoint directives (format : string) : nat :=
  match format with
  | EmptyString => 0
  | String c rest =>
      if Ascii.eqb c "%"%char then S (directives rest) else directives rest
  end.

(** ** [load_config] *)

Definition starts_with_sep (s : string) : bool :=
  match s with
  | String c _ => Ascii.eqb c "/"%char
  | EmptyString => false
  end.

Fixpoint ends_with_sep (s : string) : bool :=
  match s with
  | EmptyString => false
  | String c EmptyString => Ascii.eqb c "/"%char
  | String _ rest => ends_with_sep rest
  end.

(** [os.path.join(a, b)] of [posixpath]: an absolute [b] replaces [a]; a
    separator is put in between unless [a] is empty or ends with one. *)
Definition path_join (a b : string) : string :=
  if starts_with_sep b then b
  else if (String.eqb a "" || ends_with_sep a)%bool then String.append a b
  else String.append a (String.append "/" b).

(** What [load_config] takes from the file named by [server_conf], once
    [ConfigFile.read] and [json2obj] have done their work. *)
Record Confs : Type := {
  app_save_path : string;
  http_addr : string;
  http_port : Z;
}.

(** The attributes [load_config] sets on [self]. *)
Record Config : Type := {
  pictures_folder : string;
  thumbnails_folder : string;
  external_folder : string;
  confs : Confs;
  pictures_path : string;
  thumbnails_path : string;
  external_path : string;
}.

Section LoadConfig.

(** The file system: [os.path.exists], and [os.makedirs(p, exist_ok=True)],
    which may fail. *)
Variable FS : Type.
Variable path_exists : FS -> string -> bool.
Variable makedirs : FS -> string -> option FS.

(** [ConfigFile(name).read()] with the three sections made objects. *)
Variable read_conf : string -> Confs.

(** [if not os.path.exists(p): os.makedirs(p, exist_ok=True)] *)
Definition ensure_dir (p : string) (fs : FS) : os_result unit * FS :=
  if path_exists fs p then (Done tt, fs)
  else match makedirs fs p with
       | Some fs' => (Done tt, fs')
       | None => (OSError, fs)
       end.

Definition load_config (server_settings : gmap string string) (fs : FS)
    : os_result Config * FS :=
  match server_settings !! "pictures_folder" with
  | None => (KeyError "pictures_folder", fs)
  | Some pictures =>
  match server_settings !! "thumbnails_folder" with
  | None => (KeyError "thumbnails_folder", fs)
  | Some thumbnails =>
  match server_settings !! "external_folder" with
  | None => (KeyError "external_folder", fs)
  | Some external =>
  match server_settings !! "server_conf" with
  | None => (KeyError "server_conf", fs)
  | Some name =>
      let cs := read_conf name in
      let p1 := path_join (app_save_path cs) pictures in
      let p2 := path_join (app_save_path cs) thumbnails in
      let p3 := path_join (app_save_path cs) external in
      match ensure_dir p1 fs with
      | (Done _, fs1) =>
          match ensure_dir p2 fs1 with
          | (Done _, fs2) =>
              match ensure_dir p3 fs2 with
              | (Done _, fs3) =>
                  (Done {| pictures_folder := pictures;
                           thumbnails_folder := thumbnails;
                           external_folder := external;
                           confs := cs;
                           pictures_path := p1;
                           thumbnails_path := p2;
                           external_path := p3 |}, fs3)
              | (OSError, fs3) => (OSError, fs3)
              | (KeyError k, fs3) => (KeyError k, fs3)
              end
          | (OSError, fs2) => (OSError, fs2)
          | (KeyError k, fs2) => (KeyError k, fs2)
          end
      | (OSError, fs1) => (OSError, fs1)
      | (KeyError k, fs1) => (KeyError k, fs1)
      end
  end end end end.

End LoadConfig.

Arguments ensure_dir {FS} path_exists makedirs p fs.
Arguments load_config {FS} path_exists makedirs read_conf server_settings fs.

(** A file system for the examples: the list of the paths that exist;
    [makedirs] fails on the empty path. *)
Module DemoFS.

Definition path_exists (fs : list string) (p : string) : bool :=
  existsb (String.eqb p) fs.

Definition makedirs (fs : list string) (p : string) : option (list string) :=
  if String.eqb p "" then None else Some (p :: fs).

Definition read_conf (name : string) : Confs :=
  {| app_save_path := "/srv/snapbox"; http_addr := "0.0.0.0"; http_port := 8888 |}.

Definition server_settings : gmap string string :=
  <[ "pictures_folder" := "pictures" ]>
    (<[ "thumbnails_folder" := "thumbnails" ]>
       (<[ "external_folder" := "/mnt/usb" ]>
          (<[ "server_conf" := "server.json" ]> ∅))).

End DemoFS.

(** ** The routing table of [__init__] *)

(** Regular expressions, as far as the patterns of the table go. *)
Module Re.

Inductive regex : Type :=
| Empty
| Eps
| Chr (c : ascii)
| Digit
| AnyChar
| Seq (r1 r2 : regex)
| Alt (r1 r2 : regex)
| Star (r : regex).

(** [r?] and [r+] *)
Definition Opt (r : regex) : regex := Alt r Eps.
Definition Plus (r : regex) : regex := Seq r (Star r).

(** [\d] on a path, whose characters are below 256: the ten digits. *)
Definition is_digit (c : ascii) : bool :=
  (Nat.leb 48 (nat_of_ascii c) && Nat.leb (nat_of_ascii c) 57)%bool.

Definition newline : ascii := "010"%char.

(** [.] without [DOTALL]: any character but the newline. *)
Definition is_any (c : ascii) : bool := negb (Ascii.eqb c newline).

Fixpoint nullable (r : regex) : bool :=
  match r with
  | Empty => false
  | Eps => true
  | Chr _ => false
  | Digit => false
  | AnyChar => false
  | Seq r1 r2 => (nullable r1 && nullable r2)%bool
  | Alt r1 r2 => (nullable r1 || nullable r2)%bool
  | Star _ => true
  end.

(** What is left of [r] after the character [c]. *)
Fixpoint deriv (c : ascii) (r : regex) : regex :=
  match r with
  | Empty => Empty
  | Eps => Empty
  | Chr c' => if Ascii.eqb c c' then Eps else Empty
  | Digit => if is_digit c then Eps else Empty
  | AnyChar => if is_any c then Eps else Empty
  | Seq r1 r2 =>
      if nullable r1 then Alt (Seq (deriv c r1) r2) (deriv c r2)
      else Seq (deriv c r1) r2
  | Alt r1 r2 => Alt (deriv c r1) (deriv c r2)
  | Star r1 => Seq (deriv c r1) (Star r1)
  end.

(** Whether the whole of [s] is in the language of [r]. *)
Fixpoint matches (r : regex) (s : string) : bool :=
  match s with
  | EmptyString => nullable r
  | String c rest => matches (deriv c r) rest
  end.

(** *** Reading a pattern *)

Definition is_special (c : ascii) : bool :=
  existsb (Ascii.eqb c)
    ["|"; "["; "]"; "{"; "}"; "*"; "+"; "?"; "("; ")"; "\"; "^"; "$"; "."]%char.

(** Drops a group name up to its closing angle bracket. *)
Fixpoint skip_name (s : string) : option string :=
  match s with
  | EmptyString => None
  | String c rest => if Ascii.eqb c ">"%char then Some rest else skip_name rest
  end.

(** What follows an opening parenthesis: a plain group, or a named one
    [(?P<name>...)]. *)
Definition group_body (s : string) : option string :=
  match s with
  | String "?" (String "P" (String "<" rest)) => skip_name rest
  | String "?" _ => None
  | _ => Some s
  end.

Definition postfix (a : regex) (s : string) : regex * string :=
  match s with
  | String "?" rest => (Opt a, rest)
  | String "+" rest => (Plus a, rest)
  | String "*" rest => (Star a, rest)
  | _ => (a, s)
  end.

(** A sequence of items up to the end or to a closing parenthesis. *)
Fixpoint parse_seq (fuel : nat) (s : string) : option (regex * string) :=
  match fuel with
  | 0 => None
  | S f =>
      match s with
      | EmptyString => Some (Eps, EmptyString)
      | String c rest =>
          if Ascii.eqb c ")"%char then Some (Eps, s)
          else
            let atom :=
              if Ascii.eqb c "("%char then
                match group_body rest with
                | Some body =>
                    match parse_seq f body with
                    | Some (r, String c' after) =>
                        if Ascii.eqb c' ")"%char then Some (r, after) else None
                    | _ => None
                    end
                | None => None
                end
              else if Ascii.eqb c "\"%char then
                match rest with
                | String "d" rest' => Some (Digit, rest')
                | _ => None
                end
              else if Ascii.eqb c "."%char then Some (AnyChar, rest)
              else if is_special c then None
              else Some (Chr c, rest) in
            match atom with
            | Some (a, after) =>
                match parse_seq f (snd (postfix a after)) with
                | Some (r, tail) => Some (Seq (fst (postfix a after)) r, tail)
                | None => None
                end
            | None => None
            end
      end
  end.

Definition strip_caret (s : string) : string :=
  match s with
  | String "^" rest => rest
  | _ => s
  end.

Fixpoint strip_dollar (s : string) : string :=
  match s with
  | EmptyString => EmptyString
  | String "$" EmptyString => EmptyString
  | String c rest => String c (strip_dollar rest)
  end.

(** [$]: the end of the string, or just before a newline that ends it. *)
Definition at_end : regex := Opt (Chr newline).

(** The pattern of a rule as the application compiles it: a [$] is added
    when the pattern does not end with one, and [match] anchors it at the
    start. *)
Definition compile (pattern : string) : option regex :=
  let body := strip_dollar (strip_caret pattern) in
  match parse_seq (S (String.length body)) body with
  | Some (r, EmptyString) => Some (Seq r at_end)
  | _ => None
  end.

(** A literal prefix in front of [r], character by character. *)
Fixpoint lits (prefix : string) (r : regex) : regex :=
  match prefix with
  | EmptyString => r
  | String c rest => Seq (Chr c) (lits rest r)
  end.

End Re.

(** The handler classes of the table. *)
Inductive Target : Type :=
| ConfigHandler
| PicturesHandler
| PictureHandler
| AssetsHandler
| ServerWebSocketHandler
| SnapHandler
| AuthLoginHandler.

(** [handlers] in [__init__]: the upload rule has [None] for a handler. *)
Definition handlers : list (string * option Target) :=
  [ ("^/config/?", Some ConfigHandler);
    ("^/pictures/?", Some PicturesHandler);
    ("^/pictures/(\d+)?", Some PictureHandler);
    ("^/assets/(\d+)", Some AssetsHandler);
    ("^/upload/(?P<filename>.*)", None);
    ("^/ws/server?", Some ServerWebSocketHandler);
    ("^/snap/?", Some SnapHandler);
    ("^/auth/login/?", Some AuthLoginHandler) ].

(** Whether a rule's pattern matches the path of a request. *)
Definition rule_matches (pattern : string) (path : string) : bool :=
  match Re.compile pattern with
  | Some r => Re.matches r path
  | None => false
  end.

(** The rules of the table that match a path, in table order, and the
    first of them. *)
Definition matching (path : string) : list (string * option Target) :=
  List.filter (fun rule => rule_matches (fst rule) path) handlers.

Definition find_rule (path : string) : option (string * option Target) :=
  head (matching path).

(** [path] is [s], or [s] and a newline after it. *)
Definition is_path (s path : string) : Prop :=
  path = s \/ path = s +:+ String Re.newline "".

(** A path without the newline that may end it. *)
Fixpoint chomp (s : string) : string :=
  match s with
  | EmptyString => EmptyString
  | String c EmptyString => if Ascii.eqb c Re.newline then EmptyString else s
  | String c rest => String c (chomp rest)
  end.

Fixpoint all_chars (p : ascii -> bool) (s : string) : bool :=
  match s with
  | EmptyString => true
  | String c rest => (p c && all_chars p rest)%bool
  end.

(** * Properties *)

Section ServerFacts.

Context {camera_api : CameraApi}.

Lemma add_trace_nil (st : State) : add_trace [] st = st.
Proof. destruct st; unfold add_trace; simpl. by rewrite app_nil_r. Qed.

Lemma add_trace_emit (e : Effect) (es : list Effect) (st : State) :
  add_trace es (emit e st) = add_trace (e :: es) st.
Proof. unfold add_trace, emit; simpl. by rewrite <- app_assoc. Qed.

Lemma add_trace_add_trace (es1 es2 : list Effect) (st : State) :
  add_trace es2 (add_trace es1 st) = add_trace (es1 ++ es2) st.
Proof. unfold add_trace; simpl. by rewrite <- app_assoc. Qed.

(** The loop over the handlers, whatever the list it walks. *)
Lemma for_each_write_message (payload : string) (l : list WebSocket) (st : State) :
  for_each l (fun w => write_message w payload) st
  = (broadcast_result (closed st) l,
     add_trace (broadcast_effects (closed st) payload l) st).
Proof.
  revert st. induction l as [|w l IH]; intros st.
  - simpl. unfold ret, broadcast_result. simpl. by rewrite add_trace_nil.
  - simpl. unfold bind at 1. unfold write_message, bind, get.
    unfold broadcast_result. simpl.
    destruct (closed st w) eqn:Hw; simpl.
    + reflexivity.
    + unfold modify. rewrite IH. simpl. rewrite add_trace_emit.
      reflexivity.
Qed.

Lemma send_msg_to_websockets_run (msg_json : Json.pydict) (st : State) :
  send_msg_to_websockets msg_json st
  = (broadcast_result (closed st) (websockets st),
     add_trace (broadcast_effects (closed st) (Json.dumps msg_json) (websockets st)) st).
Proof.
  unfold send_msg_to_websockets, bind, get. apply for_each_write_message.
Qed.

Lemma py_in_true (w : WebSocket) (l : list WebSocket) : py_in w l = true <-> w ∈ l.
Proof.
  unfold py_in. rewrite existsb_exists. split.
  - intros (x & Hx & Heq). apply Nat.eqb_eq in Heq. subst.
    by apply list_elem_of_In.
  - intros Hin. exists w. split; [by apply list_elem_of_In | apply Nat.eqb_refl].
Qed.

Lemma py_in_false (w : WebSocket) (l : list WebSocket) : py_in w l = false <-> w ∉ l.
Proof.
  rewrite <- py_in_true. destruct (py_in w l); split; congruence.
Qed.

(** ** Reading a trace that grew *)

Lemma delivered_to_app (w : WebSocket) (tr1 tr2 : list Effect) :
  delivered_to w (tr1 ++ tr2) = delivered_to w tr1 ++ delivered_to w tr2.
Proof.
  induction tr1 as [|e tr1 IH]; simpl; [done|].
  destruct e; simpl; auto. destruct (Nat.eqb w ws); simpl; congruence.
Qed.

Lemma recipients_app (tr1 tr2 : list Effect) :
  recipients (tr1 ++ tr2) = recipients tr1 ++ recipients tr2.
Proof.
  induction tr1 as [|e tr1 IH]; simpl; [done|].
  destruct e; simpl; congruence.
Qed.

(** ** The message on the wire *)

Lemma dumps_state_event (value : bool) :
  Json.dumps (state_event value) = wire_schema value.
Proof. destruct value; reflexivity. Qed.

(** The two wire texts differ: the value can be read back from the
    message. *)
Lemma wire_schema_inj (a b : bool) : wire_schema a = wire_schema b -> a = b.
Proof.
  destruct a, b; intros Heq; try reflexivity; cbv in Heq; discriminate Heq.
Qed.

(** ** The guard of [usb_device_event] *)

Lemma qualifies_true (device : Device) :
  qualifies device = true <->
  (action device = Some "add" \/ action device = Some "remove")
  /\ device_type device = Some "usb_interface".
Proof.
  unfold qualifies, in_add_remove, is_usb_interface.
  rewrite andb_true_iff.
  destruct (action device) as [a|], (device_type device) as [t|]; simpl;
    rewrite ?orb_true_iff, ?String.eqb_eq; split;
    intros [Ha Ht]; try discriminate; try (destruct Ha; discriminate).
  - split; [destruct Ha; subst; auto | by subst].
  - split; [destruct Ha as [Ha|Ha]; inversion Ha; auto | by inversion Ht].
Qed.

Lemma qualifies_false (device : Device) :
  qualifies device = false <->
  (action device <> Some "add" /\ action device <> Some "remove")
  \/ device_type device <> Some "usb_interface".
Proof.
  split.
  - intros Hq.
    destruct (decide (device_type device = Some "usb_interface")) as [Ht|Ht];
      [left | by right].
    split; intros Ha;
      (assert (qualifies device = true) as Hq' by (apply qualifies_true; auto));
      congruence.
  - intros Hno. destruct (qualifies device) eqn:Hq; [|done].
    apply qualifies_true in Hq as [Ha Ht].
    destruct Hno as [[Hadd Hrem]|Hty]; [destruct Ha; contradiction | contradiction].
Qed.

Lemma usb_device_event_qualifying (device : Device) (st : State) :
  qualifies device = true ->
  usb_device_event device st
  = send_msg_to_websockets (state_event (get_connect (load (camera st))))
      (refreshed device st).
Proof.
  intros Hq. unfold usb_device_event. rewrite Hq. reflexivity.
Qed.

Lemma payloads_broadcast_effects (is_closed : WebSocket -> bool) (payload : string)
    (l : list WebSocket) :
  Forall (fun p => p = payload) (payloads (broadcast_effects is_closed payload l)).
Proof.
  induction l as [|w l IH]; simpl; [constructor|].
  destruct (is_closed w); simpl; repeat constructor; auto.
Qed.

(** ** Device events *)

(** C5: a device event that does not qualify, because its action is
    neither add nor remove or because its device type is not
    usb_interface, has no effect at all: the handler returns normally and
    the whole state is the one it started from, so there is no probe of the
    camera, no log line, no frame sent, and the registry and the camera are
    unchanged. *)
Theorem usb_device_event_discards (device : Device) (st : State) :
  (action device <> Some "add" /\ action device <> Some "remove")
  \/ device_type device <> Some "usb_interface" ->
  usb_device_event device st = (Ok tt, st)
  /\ trace (snd (usb_device_event device st)) = trace st
  /\ websockets (snd (usb_device_event device st)) = websockets st
  /\ camera (snd (usb_device_event device st)) = camera st.
Proof.
  intros Hno. apply qualifies_false in Hno.
  assert (usb_device_event device st = (Ok tt, st)) as Heq.
  { unfold usb_device_event. rewrite Hno. reflexivity. }
  rewrite Heq. auto.
Qed.

(** C1: a device event whose action is add or remove and whose device type
    is usb_interface makes the handler run exactly one broadcast, and the
    message of that broadcast is the wire text whose value field is the
    connection state read after [camera.load()] has returned: the handler
    is one log line, one probe and then one call of
    [send_msg_to_websockets] on the probed state; the trace grows by
    exactly these; every payload handed to a websocket is the wire text
    with the probed value, never the text with the other value, so never
    the text of a state held before the probe that the probe changed; and
    the camera is left as the probe made it. *)
Theorem usb_device_event_broadcasts_refreshed (device : Device) (st : State) :
  (action device = Some "add" \/ action device = Some "remove")
  /\ device_type device = Some "usb_interface" ->
  let value := get_connect (load (camera st)) in
  let payload := wire_schema value in
  let st' := snd (usb_device_event device st) in
  usb_device_event device st
  = send_msg_to_websockets (state_event value) (refreshed device st)
  /\ Json.dumps (state_event value) = payload
  /\ camera st' = load (camera st)
  /\ websockets st' = websockets st
  /\ (exists line,
        trace st' = trace st ++ [LogInfo line; CameraLoad]
                    ++ broadcast_effects (closed st) payload (websockets st))
  /\ Forall (fun p => p = payload /\ p <> wire_schema (negb value))
       (payloads (broadcast_effects (closed st) payload (websockets st)))
  /\ (get_connect (camera st) <> value ->
      payload <> wire_schema (get_connect (camera st))).
Proof.
  intros Hq. apply qualifies_true in Hq. intros value payload st'.
  pose proof (usb_device_event_qualifying device st Hq) as Hrun.
  split; [exact Hrun|].
  split; [apply dumps_state_event|].
  subst st'. rewrite Hrun, send_msg_to_websockets_run, dumps_state_event. simpl.
  split; [done|]. split; [done|]. split; [|split].
  - eexists. rewrite <- !app_assoc. simpl. reflexivity.
  - eapply Forall_impl; [apply payloads_broadcast_effects|].
    intros p ->. split; [done|]. intros Heq. apply wire_schema_inj in Heq.
    by destruct value.
  - intros Hne Heq. apply wire_schema_inj in Heq. congruence.
Qed.

(** ** Subscribing *)

(** C3: for a handler that is not in the registry, [add_websocket] appends
    it to the registry and then makes exactly one call of
    [write_message], on that handler and on no other, with the wire text
    whose value field is the connection state the camera holds at that
    moment (no probe is made), not the text with the other value; when the
    handler's connection is open the call queues the frame and the method
    returns normally. *)
Theorem add_websocket_registers_and_initialises (w : WebSocket) (st : State) :
  w ∉ websockets st ->
  let payload := wire_schema (get_connect (camera st)) in
  let st' := snd (add_websocket w st) in
  websockets st' = websockets st ++ [w]
  /\ camera st' = camera st
  /\ trace st' = trace st
                 ++ [if closed st w then WriteFailed w payload
                     else WriteMessage w payload]
  /\ payload <> wire_schema (negb (get_connect (camera st)))
  /\ (closed st w = false ->
      fst (add_websocket w st) = Ok tt
      /\ delivered_to w (trace st') = delivered_to w (trace st) ++ [payload]
      /\ forall x, x <> w -> delivered_to x (trace st') = delivered_to x (trace st)).
Proof.
  intros Hnew payload st'. apply py_in_false in Hnew.
  assert (payload <> wire_schema (negb (get_connect (camera st)))) as Hother.
  { intros Heq. apply wire_schema_inj in Heq. by destruct (get_connect (camera st)). }
  subst st' payload. unfold add_websocket, bind, get. rewrite Hnew. simpl.
  unfold send_init_event_to_websocket, bind, camera_get_connect, modify. simpl.
  unfold write_message, bind, get. simpl. rewrite dumps_state_event.
  destruct (closed st w) eqn:Hw; simpl; repeat split; try done.
  - rewrite delivered_to_app. simpl. by rewrite Nat.eqb_refl.
  - intros x Hne. rewrite delivered_to_app. simpl.
    apply Nat.eqb_neq in Hne. rewrite Hne. by rewrite app_nil_r.
Qed.

(** C9: for a handler that is already in the registry, [add_websocket]
    does nothing: it returns normally and the whole state, trace included,
    is the one it started from, so no frame is sent, no second
    initialisation message in particular, and the registry is unchanged. *)
Theorem add_websocket_again_is_silent (w : WebSocket) (st : State) :
  w ∈ websockets st ->
  add_websocket w st = (Ok tt, st)
  /\ trace (snd (add_websocket w st)) = trace st
  /\ websockets (snd (add_websocket w st)) = websockets st.
Proof.
  intros Hin. apply py_in_true in Hin.
  assert (add_websocket w st = (Ok tt, st)) as Heq.
  { unfold add_websocket, bind, get. rewrite Hin. reflexivity. }
  rewrite Heq. auto.
Qed.

(** ** The wire format *)

(** The text of [wire_schema true], character code by character code. *)
Lemma wire_schema_true_codes :
  map nat_of_ascii (list_ascii_of_string (wire_schema true))
  = [123; 34; 101; 118; 101; 110; 116; 34; 58; 32; 34; 117; 112; 100; 97;
     116; 101; 34; 44; 32; 34; 116; 121; 112; 101; 34; 58; 32; 34; 115;
     116; 97; 116; 101; 34; 44; 32; 34; 109; 117; 116; 97; 116; 105; 111;
     110; 34; 58; 32; 34; 99; 97; 109; 101; 114; 97; 47; 115; 101; 116;
     73; 115; 67; 111; 110; 110; 101; 99; 116; 101; 100; 34; 44; 32; 34;
     118; 97; 108; 117; 101; 34; 58; 32; 116; 114; 117; 101; 125].
Proof. reflexivity. Qed.

Lemma wire_schema_false_codes :
  map nat_of_ascii (list_ascii_of_string (wire_schema false))
  = [123; 34; 101; 118; 101; 110; 116; 34; 58; 32; 34; 117; 112; 100; 97;
     116; 101; 34; 44; 32; 34; 116; 121; 112; 101; 34; 58; 32; 34; 115;
     116; 97; 116; 101; 34; 44; 32; 34; 109; 117; 116; 97; 116; 105; 111;
     110; 34; 58; 32; 34; 99; 97; 109; 101; 114; 97; 47; 115; 101; 116;
     73; 115; 67; 111; 110; 110; 101; 99; 116; 101; 100; 34; 44; 32; 34;
     118; 97; 108; 117; 101; 34; 58; 32; 102; 97; 108; 115; 101; 125].
Proof. reflexivity. Qed.

Lemma usb_device_event_trace (device : Device) (st : State) :
  trace (snd (usb_device_event device st))
  = trace st
    ++ (if qualifies device
        then [LogInfo (String.append "background event "
                         (String.append (fmt (action device))
                            (String.append ": " (device_path device))));
              CameraLoad]
             ++ broadcast_effects (closed st)
                  (Json.dumps (state_event (get_connect (load (camera st)))))
                  (websockets st)
        else []).
Proof.
  destruct (qualifies device) eqn:Hq.
  - rewrite (usb_device_event_qualifying device st Hq).
    rewrite send_msg_to_websockets_run. simpl.
    by rewrite <- !app_assoc.
  - unfold usb_device_event. rewrite Hq. simpl. by rewrite app_nil_r.
Qed.

Lemma add_websocket_run (w : WebSocket) (st : State) :
  snd (add_websocket w st)
  = if py_in w (websockets st) then st
    else add_trace
           [if closed st w
            then WriteFailed w (Json.dumps (state_event (get_connect (camera st))))
            else WriteMessage w (Json.dumps (state_event (get_connect (camera st))))]
           (set_websockets (websockets st ++ [w]) st).
Proof.
  unfold add_websocket, bind, get.
  destruct (py_in w (websockets st)); simpl; [done|].
  unfold send_init_event_to_websocket, bind, camera_get_connect, modify. simpl.
  unfold write_message, bind, get. simpl.
  destruct (closed st w); reflexivity.
Qed.

(** C6: every payload the server hands to a websocket, in the broadcast of
    a device event and in the initialisation on subscribe alike, is the
    text of the wire schema: the keys event, type, mutation and value in
    this order, the constants update, state and camera/setIsConnected, and
    a JSON boolean as the value. *)
Theorem messages_follow_wire_schema (device : Device) (w : WebSocket) (st : State) :
  (exists es,
      trace (snd (usb_device_event device st)) = trace st ++ es
      /\ Forall (fun p => exists value : bool, p = wire_schema value) (payloads es))
  /\ (exists es,
        trace (snd (add_websocket w st)) = trace st ++ es
        /\ Forall (fun p => exists value : bool, p = wire_schema value) (payloads es)).
Proof.
  split.
  - eexists. split; [apply usb_device_event_trace|].
    destruct (qualifies device); simpl; [|constructor].
    eapply Forall_impl; [apply payloads_broadcast_effects|].
    intros p ->. eexists. apply dumps_state_event.
  - rewrite add_websocket_run.
    destruct (py_in w (websockets st)).
    + exists []. split; [by rewrite app_nil_r | constructor].
    + eexists. split; [reflexivity|].
      destruct (closed st w); simpl; repeat constructor;
        eexists; apply dumps_state_event.
Qed.

(** ** The registry as a set *)

Lemma elem_of_py_remove (w x : WebSocket) (l : list WebSocket) :
  NoDup l -> x ∈ py_remove w l <-> x ∈ l /\ x <> w.
Proof.
  induction 1 as [|y l Hy Hnd IH]; simpl.
  - split; [intros Hx | intros [Hx _]]; by apply elem_of_nil in Hx.
  - destruct (Nat.eqb w y) eqn:Hwy.
    + apply Nat.eqb_eq in Hwy. subst y. rewrite elem_of_cons. split.
      * intros Hx. split; [by right | congruence].
      * intros [[->|Hx] Hne]; [done | exact Hx].
    + apply Nat.eqb_neq in Hwy. rewrite !elem_of_cons, IH. split.
      * intros [->|[Hx Hne]]; [split; [by left | congruence] | split; [by right | done]].
      * intros [[->|Hx] Hne]; [by left | by right].
Qed.

Lemma NoDup_py_remove (w : WebSocket) (l : list WebSocket) :
  NoDup l -> NoDup (py_remove w l).
Proof.
  induction 1 as [|y l Hy Hnd IH]; simpl; [constructor|].
  destruct (Nat.eqb w y); [done|].
  constructor; [|done].
  intros Hin. apply elem_of_py_remove in Hin as [Hin _]; done.
Qed.

Lemma py_remove_absent (w : WebSocket) (l : list WebSocket) :
  w ∉ l -> py_remove w l = l.
Proof.
  induction l as [|y l IH]; simpl; [done|].
  intros Hno. apply not_elem_of_cons in Hno as [Hne Hno].
  apply Nat.eqb_neq in Hne. rewrite Hne. by rewrite IH.
Qed.

Lemma remove_websocket_run (w : WebSocket) (st : State) :
  remove_websocket w st
  = (Ok tt,
     if py_in w (websockets st)
     then set_websockets (py_remove w (websockets st)) st
     else st).
Proof.
  unfold remove_websocket, bind, get.
  destruct (py_in w (websockets st)); reflexivity.
Qed.

Lemma add_websocket_websockets (w : WebSocket) (st : State) :
  websockets (snd (add_websocket w st))
  = if py_in w (websockets st) then websockets st else websockets st ++ [w].
Proof.
  rewrite add_websocket_run. by destruct (py_in w (websockets st)).
Qed.

Lemma remove_websocket_websockets (w : WebSocket) (st : State) :
  websockets (snd (remove_websocket w st))
  = if py_in w (websockets st) then py_remove w (websockets st) else websockets st.
Proof.
  rewrite remove_websocket_run. simpl. by destruct (py_in w (websockets st)).
Qed.

Lemma send_msg_to_websockets_websockets (msg_json : Json.pydict) (st : State) :
  websockets (snd (send_msg_to_websockets msg_json st)) = websockets st.
Proof. by rewrite send_msg_to_websockets_run. Qed.

(** One call keeps the list free of duplicates and moves its set of
    members as the set operation does. *)
Lemma run_call_refines (c : Call) (st : State) :
  NoDup (websockets st) ->
  NoDup (websockets (snd (run_call c st)))
  /\ list_to_set (websockets (snd (run_call c st)))
     = spec_call c (list_to_set (websockets st)).
Proof.
  intros Hnd. destruct c as [w|w|msg_json]; simpl.
  - rewrite add_websocket_websockets.
    destruct (py_in w (websockets st)) eqn:Hin.
    + apply py_in_true in Hin. split; [done|].
      apply set_eq. intros x.
      rewrite elem_of_union, elem_of_singleton, elem_of_list_to_set.
      split; [by right | by intros [->|Hx]].
    + apply py_in_false in Hin. split.
      * apply NoDup_app. split; [done|]. split; [|apply NoDup_singleton].
        intros x Hx Hx'. apply list_elem_of_singleton in Hx'. by subst.
      * apply set_eq. intros x.
        rewrite elem_of_union, elem_of_singleton, !elem_of_list_to_set.
        rewrite elem_of_app, list_elem_of_singleton. tauto.
  - rewrite remove_websocket_websockets.
    destruct (py_in w (websockets st)) eqn:Hin.
    + split; [by apply NoDup_py_remove|].
      apply set_eq. intros x.
      rewrite elem_of_difference, elem_of_singleton.
      rewrite !elem_of_list_to_set, elem_of_py_remove by done.
      tauto.
    + apply py_in_false in Hin. split; [done|].
      apply set_eq. intros x.
      rewrite elem_of_difference, elem_of_singleton, elem_of_list_to_set.
      split; [|tauto]. intros Hx. split; [done|]. by intros ->.
  - rewrite send_msg_to_websockets_websockets. done.
Qed.

Lemma run_calls_refines (cs : list Call) (st : State) :
  NoDup (websockets st) ->
  NoDup (websockets (run_calls cs st))
  /\ list_to_set (websockets (run_calls cs st))
     = spec_calls cs (list_to_set (websockets st)).
Proof.
  revert st. induction cs as [|c cs IH]; intros st Hnd; simpl; [done|].
  destruct (run_call_refines c st Hnd) as [Hnd' Hset].
  destruct (IH _ Hnd') as [Hnd'' Hset'].
  split; [done|]. by rewrite Hset', Hset.
Qed.

Lemma init_websockets (cam : Camera) (env_closed : WebSocket -> bool)
    (env_started : list Observer) (env_trace : list Effect) :
  websockets (snd (init cam env_closed env_started env_trace)) = [].
Proof. reflexivity. Qed.

(** C4: on a server as its constructor leaves it, after any sequence of
    add, remove and broadcast calls the set of handlers in the registry is
    the one obtained by running the same calls on a set, add as insertion,
    remove as deletion, broadcast as no change, in call order, and no
    handler is in the registry twice; on every state, adding a handler that
    is present, removing one that is absent, and broadcasting leave the
    registry as it is. *)
Theorem registry_refines_set (cam : Camera) (env_closed : WebSocket -> bool)
    (env_started : list Observer) (env_trace : list Effect) (cs : list Call) :
  let st := run_calls cs (snd (init cam env_closed env_started env_trace)) in
  list_to_set (websockets st) = spec_calls cs ∅
  /\ NoDup (websockets st)
  /\ (forall (s : State) w,
        w ∈ websockets s -> websockets (snd (run_call (CallAdd w) s)) = websockets s)
  /\ (forall (s : State) w,
        w ∉ websockets s -> websockets (snd (run_call (CallRemove w) s)) = websockets s)
  /\ (forall (s : State) msg_json,
        websockets (snd (run_call (CallBroadcast msg_json) s)) = websockets s).
Proof.
  intros st.
  destruct (run_calls_refines cs (snd (init cam env_closed env_started env_trace)))
    as [Hnd Hset].
  { rewrite init_websockets. constructor. }
  rewrite init_websockets in Hset. simpl in Hset.
  repeat split; try done.
  - intros s w Hin. simpl. rewrite add_websocket_websockets.
    apply py_in_true in Hin. by rewrite Hin.
  - intros s w Hno. simpl. rewrite remove_websocket_websockets.
    apply py_in_false in Hno. by rewrite Hno.
  - intros s msg_json. simpl. apply send_msg_to_websockets_websockets.
Qed.

(** ** Broadcasting *)

Lemma broadcast_effects_all_open (is_closed : WebSocket -> bool) (payload : string)
    (l : list WebSocket) :
  (forall x, x ∈ l -> is_closed x = false) ->
  broadcast_effects is_closed payload l = map (fun x => WriteMessage x payload) l
  /\ broadcast_result is_closed l = Ok tt.
Proof.
  unfold broadcast_result.
  induction l as [|y l IH]; intros Hopen; simpl; [done|].
  rewrite (Hopen y) by apply list_elem_of_here. simpl.
  destruct IH as [IH1 IH2].
  { intros x Hx. apply Hopen. by apply list_elem_of_further. }
  by rewrite IH1, IH2.
Qed.

Lemma broadcast_effects_first_closed (is_closed : WebSocket -> bool)
    (payload : string) (before after : list WebSocket) (w : WebSocket) :
  (forall x, x ∈ before -> is_closed x = false) ->
  is_closed w = true ->
  broadcast_effects is_closed payload (before ++ w :: after)
  = map (fun x => WriteMessage x payload) before ++ [WriteFailed w payload]
  /\ broadcast_result is_closed (before ++ w :: after) = Raise WebSocketClosedError.
Proof.
  unfold broadcast_result. intros Hopen Hw.
  induction before as [|y before IH]; simpl.
  - by rewrite Hw.
  - rewrite (Hopen y) by apply list_elem_of_here. simpl.
    destruct IH as [IH1 IH2].
    { intros x Hx. apply Hopen. by apply list_elem_of_further. }
    by rewrite IH1, IH2.
Qed.

Lemma recipients_frames (payload : string) (l : list WebSocket) :
  recipients (map (fun x => WriteMessage x payload) l) = l.
Proof. induction l as [|y l IH]; simpl; congruence. Qed.

Lemma delivered_to_frames_absent (w : WebSocket) (payload : string)
    (l : list WebSocket) :
  w ∉ l -> delivered_to w (map (fun x => WriteMessage x payload) l) = [].
Proof.
  induction l as [|y l IH]; simpl; [done|].
  intros Hno. apply not_elem_of_cons in Hno as [Hne Hno].
  apply Nat.eqb_neq in Hne. rewrite Hne. auto.
Qed.

Lemma delivered_to_frames_once (w : WebSocket) (payload : string)
    (l : list WebSocket) :
  NoDup l -> w ∈ l ->
  delivered_to w (map (fun x => WriteMessage x payload) l) = [payload].
Proof.
  induction 1 as [|y l Hy Hnd IH]; simpl; intros Hin.
  - by apply elem_of_nil in Hin.
  - apply elem_of_cons in Hin as [->|Hin].
    + rewrite Nat.eqb_refl. by rewrite delivered_to_frames_absent.
    + destruct (Nat.eqb w y) eqn:Hwy; [|auto].
      apply Nat.eqb_eq in Hwy. by subst.
Qed.

(** C2, as the code has it: the loop has no handler for a failing send.
    When the send to a subscriber raises, and the sends to those registered
    before it did not, the broadcast has delivered the message to exactly
    those registered before it, the error leaves [send_msg_to_websockets]
    towards its caller, and the subscribers registered after the failing
    one are not sent anything. *)
Theorem broadcast_stops_at_failing_send (msg_json : Json.pydict) (st : State)
    (before after : list WebSocket) (w : WebSocket) :
  websockets st = before ++ w :: after ->
  (forall x, x ∈ before -> closed st x = false) ->
  closed st w = true ->
  let payload := Json.dumps msg_json in
  let st' := snd (send_msg_to_websockets msg_json st) in
  send_msg_to_websockets msg_json st
  = (Raise WebSocketClosedError,
     add_trace (map (fun x => WriteMessage x payload) before
                ++ [WriteFailed w payload]) st)
  /\ recipients (trace st') = recipients (trace st) ++ before
  /\ (forall x, x ∉ before -> delivered_to x (trace st') = delivered_to x (trace st)).
Proof.
  intros Hws Hopen Hw payload st'.
  destruct (broadcast_effects_first_closed (closed st) payload before after w
              Hopen Hw) as [Heff Hres].
  assert (send_msg_to_websockets msg_json st
          = (Raise WebSocketClosedError,
             add_trace (map (fun x => WriteMessage x payload) before
                        ++ [WriteFailed w payload]) st)) as Hrun.
  { rewrite send_msg_to_websockets_run, Hws. fold payload. by rewrite Heff, Hres. }
  split; [exact Hrun|]. subst st'. rewrite Hrun. simpl. split.
  - rewrite !recipients_app, recipients_frames. simpl. by rewrite app_nil_r.
  - intros x Hx. rewrite !delivered_to_app, delivered_to_frames_absent by done.
    simpl. by rewrite app_nil_r.
Qed.

(** C10, as the code has it: when no registered subscriber's connection
    is closed, so that no send raises, a broadcast returns normally and
    delivers the serialised message to the registered subscribers in
    registration order, once per entry of the registry and therefore, the
    registry holding no handler twice, exactly once to each; with an empty
    registry it sends nothing and returns normally; and a qualifying device
    event on an empty registry still probes the camera. *)
Theorem broadcast_reaches_every_open_subscriber (msg_json : Json.pydict)
    (device : Device) (st : State) :
  (forall w, w ∈ websockets st -> closed st w = false) ->
  let payload := Json.dumps msg_json in
  let st' := snd (send_msg_to_websockets msg_json st) in
  send_msg_to_websockets msg_json st
  = (Ok tt, add_trace (map (fun w => WriteMessage w payload) (websockets st)) st)
  /\ recipients (trace st') = recipients (trace st) ++ websockets st
  /\ (NoDup (websockets st) ->
      forall w, w ∈ websockets st ->
        delivered_to w (trace st') = delivered_to w (trace st) ++ [payload])
  /\ (websockets st = [] -> send_msg_to_websockets msg_json st = (Ok tt, st))
  /\ (websockets st = [] -> qualifies device = true ->
      usb_device_event device st = (Ok tt, refreshed device st)
      /\ camera (refreshed device st) = load (camera st)
      /\ CameraLoad ∈ trace (refreshed device st)).
Proof.
  intros Hopen payload st'.
  destruct (broadcast_effects_all_open (closed st) payload (websockets st) Hopen)
    as [Heff Hres].
  assert (send_msg_to_websockets msg_json st
          = (Ok tt, add_trace (map (fun w => WriteMessage w payload) (websockets st)) st))
    as Hrun.
  { rewrite send_msg_to_websockets_run. fold payload. by rewrite Heff, Hres. }
  split; [exact Hrun|]. subst st'. rewrite Hrun. simpl.
  split; [by rewrite recipients_app, recipients_frames|].
  split; [intros Hnd w Hin; by rewrite delivered_to_app, delivered_to_frames_once|].
  split.
  - intros Hnil. rewrite Hnil. simpl. by rewrite add_trace_nil.
  - intros Hnil Hq. split; [|split].
    + rewrite (usb_device_event_qualifying device st Hq).
      rewrite send_msg_to_websockets_run. simpl. rewrite Hnil. simpl.
      by rewrite add_trace_nil.
    + reflexivity.
    + simpl. apply elem_of_app. right. apply list_elem_of_here.
Qed.

(** ** Starting the monitor *)

Lemma udev_init_run (st : State) :
  let ob := {| obs_id := length (started st);
               obs_name := "usb-monitor-observer"; obs_subsystem := "usb" |} in
  udev_init st
  = (Ok tt,
     {| camera := camera st; websockets := websockets st;
        observer_usb := Some ob;
        closed := closed st; started := started st ++ [ob];
        trace := trace st ++ [ObserverStart ob] |}).
Proof. reflexivity. Qed.

Lemma udev_init_times_started (n : nat) (st : State) :
  length (started (udev_init_times n st)) = length (started st) + n
  /\ started st `prefix_of` started (udev_init_times n st).
Proof.
  revert st. induction n as [|n IH]; intros st; simpl.
  - split; [lia | done].
  - destruct (IH (snd (udev_init st))) as [Hlen Hpre]. simpl in *.
    rewrite length_app in Hlen. simpl in Hlen. split; [lia|].
    etrans; [|exact Hpre]. by apply prefix_app_r.
Qed.

(** C8, as the code has it: [udev_init] is not idempotent.  Every
    invocation builds one new observer, stores it in [observer_usb] and
    starts it, and leaves the observers started before running: after [n]
    invocations there are [n] more started observers than before.  The
    constructor invokes it once, so a server constructed in a process
    without observers has exactly one. *)
Theorem udev_init_starts_one_more (n : nat) (st : State) (cam : Camera)
    (env_closed : WebSocket -> bool) (env_trace : list Effect) :
  length (started (udev_init_times n st)) = length (started st) + n
  /\ started st `prefix_of` started (udev_init_times n st)
  /\ observer_usb (snd (udev_init st)) = last (started (snd (udev_init st)))
  /\ length (started (snd (init cam env_closed [] env_trace))) = 1.
Proof.
  destruct (udev_init_times_started n st) as [Hlen Hpre].
  repeat split; try done.
  simpl. by rewrite last_snoc.
Qed.

(** ** The broadcast loop next to the connection handlers *)

Lemma write_message_open (w : WebSocket) (payload : string) (st : State) :
  closed st w = false ->
  write_message w payload st = (Ok tt, emit (WriteMessage w payload) st).
Proof. intros Hw. unfold write_message, bind, get. by rewrite Hw. Qed.

Lemma write_message_closed (w : WebSocket) (payload : string) (st : State) :
  closed st w = true ->
  write_message w payload st
  = (Raise WebSocketClosedError, emit (WriteFailed w payload) st).
Proof. intros Hw. unfold write_message, bind, get. by rewrite Hw. Qed.

Lemma send_init_event_to_websocket_run (w : WebSocket) (st : State) :
  snd (send_init_event_to_websocket w st)
  = emit (if closed st w
          then WriteFailed w (wire_schema (get_connect (camera st)))
          else WriteMessage w (wire_schema (get_connect (camera st)))) st.
Proof.
  unfold send_init_event_to_websocket, bind, camera_get_connect. simpl.
  unfold bind. rewrite dumps_state_event.
  destruct (closed st w) eqn:Hw.
  - by rewrite write_message_closed.
  - by rewrite write_message_open.
Qed.


Lemma elem_of_py_remove_inv (w x : WebSocket) (l : list WebSocket) :
  x ∈ py_remove w l -> x ∈ l.
Proof.
  induction l as [|y l IH]; simpl; [done|].
  destruct (Nat.eqb w y); intros Hx.
  - by apply list_elem_of_further.
  - apply elem_of_cons in Hx as [->|Hx];
      [apply list_elem_of_here | apply list_elem_of_further; auto].
Qed.

(** *** The steps of the loop *)

Lemma loop_step_next (st : State) (i : nat) (w : WebSocket) (payload : string)
    (got ini : list WebSocket) :
  websockets st !! i = Some w ->
  loop_step {| shared := st; loop := Running i; sending := payload;
               reached := got; initialising := ini |}
  = {| shared := st; loop := Holding (S i) w; sending := payload;
       reached := got; initialising := ini |}.
Proof. intros Hi. unfold loop_step. simpl. by rewrite Hi. Qed.

Lemma loop_step_end (st : State) (i : nat) (payload : string)
    (got ini : list WebSocket) :
  websockets st !! i = None ->
  loop_step {| shared := st; loop := Running i; sending := payload;
               reached := got; initialising := ini |}
  = {| shared := st; loop := Finished; sending := payload;
       reached := got; initialising := ini |}.
Proof. intros Hi. unfold loop_step. simpl. by rewrite Hi. Qed.

Lemma loop_step_open (st : State) (i : nat) (w : WebSocket) (payload : string)
    (got ini : list WebSocket) :
  closed st w = false ->
  loop_step {| shared := st; loop := Holding i w; sending := payload;
               reached := got; initialising := ini |}
  = {| shared := emit (WriteMessage w payload) st; loop := Running i;
       sending := payload; reached := got ++ [w]; initialising := ini |}.
Proof. intros Hw. unfold loop_step. simpl. by rewrite write_message_open. Qed.

Lemma loop_step_closed (st : State) (i : nat) (w : WebSocket) (payload : string)
    (got ini : list WebSocket) :
  closed st w = true ->
  loop_step {| shared := st; loop := Holding i w; sending := payload;
               reached := got; initialising := ini |}
  = {| shared := emit (WriteFailed w payload) st;
       loop := Aborted WebSocketClosedError;
       sending := payload; reached := got; initialising := ini |}.
Proof. intros Hw. unfold loop_step. simpl. by rewrite write_message_closed. Qed.

Lemma loop_alone_idle (n : nat) (c : Conc) :
  loop c = Finished \/ (exists e, loop c = Aborted e) ->
  run_schedule (replicate n ActLoop) c = c.
Proof.
  intros Hidle. induction n as [|n IH]; simpl; [done|].
  assert (loop_step c = c) as ->; [|exact IH].
  unfold loop_step. by destruct Hidle as [-> | [e ->]].
Qed.

(** The steps of the loop with nothing in between are the loop of the
    sequential method: two steps for every handler, and one to find the
    end. *)
Lemma loop_alone (payload : string) (rest : list WebSocket) :
  forall (st : State) (i : nat) (got ini : list WebSocket),
    drop i (websockets st) = rest ->
    let c := run_schedule (replicate (2 * length rest + 1) ActLoop)
               {| shared := st; loop := Running i; sending := payload;
                  reached := got; initialising := ini |} in
    shared c = add_trace (broadcast_effects (closed st) payload rest) st
    /\ loop c = match broadcast_result (closed st) rest with
                | Ok _ => Finished
                | Raise e => Aborted e
                end.
Proof.
  induction rest as [|w rest IH]; intros st i got ini Hdrop.
  - assert (websockets st !! i = None) as Hi.
    { apply lookup_ge_None. apply (f_equal length) in Hdrop.
      rewrite length_drop in Hdrop. simpl in Hdrop. lia. }
    cbn [length Nat.mul Nat.add replicate run_schedule conc_step].
    rewrite loop_step_end by done. simpl. by rewrite add_trace_nil.
  - assert (websockets st !! i = Some w) as Hi.
    { rewrite <- (Nat.add_0_r i), <- lookup_drop, Hdrop. done. }
    assert (drop (S i) (websockets st) = rest) as Hdrop'.
    { replace (S i) with (i + 1) by lia. rewrite <- drop_drop, Hdrop. done. }
    replace (2 * length (w :: rest) + 1) with (S (S (2 * length rest + 1)))
      by (simpl; lia).
    cbn [replicate run_schedule conc_step].
    rewrite (loop_step_next st i w) by done.
    unfold broadcast_result. cbn [broadcast_effects existsb].
    destruct (closed st w) eqn:Hw.
    + rewrite loop_step_closed by done.
      rewrite loop_alone_idle by (right; by eexists). done.
    + rewrite loop_step_open by done. cbn [orb].
      specialize (IH (emit (WriteMessage w payload) st) (S i) (got ++ [w]) ini Hdrop').
      cbn zeta in IH. destruct IH as [IH1 IH2]. split.
      * rewrite IH1. cbn [closed emit]. by rewrite add_trace_emit.
      * rewrite IH2. reflexivity.
Qed.

(** X22: the stepwise loop run without interruption is the method: after
    one [next] and one send for each registered handler and one last
    [next], the server is in the state [send_msg_to_websockets] leaves it
    in, calls made included, and the loop has finished when the method
    returns and has stopped on the exception when the method raises. *)
Theorem loop_alone_is_send_msg_to_websockets (msg_json : Json.pydict) (st : State) :
  let c := run_schedule (replicate (2 * length (websockets st) + 1) ActLoop)
             (start_broadcast msg_json st) in
  shared c = snd (send_msg_to_websockets msg_json st)
  /\ loop c = match fst (send_msg_to_websockets msg_json st) with
              | Ok _ => Finished
              | Raise e => Aborted e
              end.
Proof.
  rewrite send_msg_to_websockets_run. simpl fst. simpl snd.
  apply (loop_alone (Json.dumps msg_json) (websockets st) st 0 [] []).
  apply drop_0.
Qed.

(** X23: the two steps of [add_websocket] with nothing in between, and no
    other initialisation outstanding, are the method: the same registry
    and the same calls, and no initialisation left outstanding. *)
Theorem append_then_init_is_add_websocket (w : WebSocket) (c : Conc) :
  initialising c = [] ->
  shared (conc_step (ActInit w) (conc_step (ActAppend w) c))
  = snd (add_websocket w (shared c))
  /\ initialising (conc_step (ActInit w) (conc_step (ActAppend w) c)) = [].
Proof.
  intros Hini. cbn [conc_step]. unfold append_step.
  rewrite add_websocket_run.
  destruct (py_in w (websockets (shared c))) eqn:Hin; cbn [negb].
  - unfold init_step. rewrite Hini. done.
  - unfold init_step. cbn [initialising shared]. rewrite Hini. cbn [app].
    assert (py_in w [w] = true) as -> by (simpl; by rewrite Nat.eqb_refl).
    cbn [shared initialising]. rewrite send_init_event_to_websocket_run.
    simpl. rewrite Nat.eqb_refl, dumps_state_event.
    split; [|done]. by destruct (closed (shared c) w).
Qed.

(** *** While handlers are only added *)











(** *** After a removal *)













End ServerFacts.

(** * The properties on concrete servers *)

(** A change event on the tracked interface is discarded. *)
Lemma usb_device_event_discards_witness :
  action Demo.usb_change <> Some "add"
  /\ action Demo.usb_change <> Some "remove"
  /\ usb_device_event Demo.usb_change (Demo.server [1; 2] Demo.all_open)
     = (Ok tt, Demo.server [1; 2] Demo.all_open).
Proof.
  split; [discriminate|]. split; [discriminate|].
  apply (@usb_device_event_discards probe_camera Demo.usb_change
           (Demo.server [1; 2] Demo.all_open)).
  left. split; discriminate.
Defined.

(** The device was plugged after the last probe: the add event probes
    again and the camera then reports it connected. *)
Lemma usb_device_event_broadcasts_refreshed_witness :
  (action Demo.usb_add = Some "add" /\ device_type Demo.usb_add = Some "usb_interface")
  /\ get_connect (camera (Demo.server [1; 2] Demo.all_open)) = false
  /\ camera (snd (usb_device_event Demo.usb_add (Demo.server [1; 2] Demo.all_open)))
     = load (camera (Demo.server [1; 2] Demo.all_open))
  /\ Forall (fun p => p = wire_schema true /\ p <> wire_schema (negb true))
       (payloads (broadcast_effects Demo.all_open (wire_schema true) [1; 2])).
Proof.
  split; [split; reflexivity|]. split; [reflexivity|].
  destruct (@usb_device_event_broadcasts_refreshed probe_camera Demo.usb_add
              (Demo.server [1; 2] Demo.all_open))
    as (_ & _ & Hcam & _ & _ & Hpay & _).
  - split; [left|]; reflexivity.
  - split; [exact Hcam | exact Hpay].
Defined.

Lemma add_websocket_registers_and_initialises_witness :
  (7 ∉ websockets (Demo.server [1; 2] Demo.all_open))
  /\ websockets (snd (add_websocket 7 (Demo.server [1; 2] Demo.all_open))) = [1; 2; 7]
  /\ trace (snd (add_websocket 7 (Demo.server [1; 2] Demo.all_open)))
     = [WriteMessage 7 (wire_schema false)].
Proof.
  assert (7 ∉ websockets (Demo.server [1; 2] Demo.all_open)) as Hnew.
  { apply py_in_false. reflexivity. }
  split; [exact Hnew|].
  destruct (@add_websocket_registers_and_initialises probe_camera 7
              (Demo.server [1; 2] Demo.all_open) Hnew)
    as (Hws & _ & Htr & _).
  split; [exact Hws | exact Htr].
Defined.

Lemma add_websocket_again_is_silent_witness :
  (2 ∈ websockets (Demo.server [1; 2] Demo.all_open))
  /\ add_websocket 2 (Demo.server [1; 2] Demo.all_open)
     = (Ok tt, Demo.server [1; 2] Demo.all_open).
Proof.
  assert (2 ∈ websockets (Demo.server [1; 2] Demo.all_open)) as Hin.
  { apply py_in_true. reflexivity. }
  split; [exact Hin|].
  apply (@add_websocket_again_is_silent probe_camera 2
           (Demo.server [1; 2] Demo.all_open) Hin).
Defined.

(** Two handlers subscribe, one twice, the first leaves, and a broadcast
    fails on nobody: the registry holds the second handler only. *)
Lemma registry_refines_set_witness :
  list_to_set
    (websockets
       (run_calls [CallAdd 1; CallAdd 2; CallAdd 2; CallRemove 1;
                   CallBroadcast (state_event true)]
          (snd (@init probe_camera {| plugged := false; connected := false |}
                  Demo.all_open [] []))))
  = spec_calls [CallAdd 1; CallAdd 2; CallAdd 2; CallRemove 1;
                CallBroadcast (state_event true)] ∅.
Proof.
  apply (@registry_refines_set probe_camera {| plugged := false; connected := false |}
           Demo.all_open [] []
           [CallAdd 1; CallAdd 2; CallAdd 2; CallRemove 1;
            CallBroadcast (state_event true)]).
Defined.

(** C2, refuted as stated: three subscribers, the second one's connection
    is closed; the third, whose connection is open, is sent nothing. *)
Lemma failing_send_cuts_off_later_subscribers :
  ~ (forall (st : @State probe_camera) (msg_json : Json.pydict) (bad w : WebSocket),
        bad ∈ websockets st -> closed st bad = true ->
        (forall x, x <> bad -> closed st x = false) ->
        w ∈ websockets st -> w <> bad ->
        delivered_to w (trace (snd (send_msg_to_websockets msg_json st)))
        = delivered_to w (trace st) ++ [Json.dumps msg_json]).
Proof.
  intros Hclaim.
  specialize (Hclaim (Demo.server [1; 2; 3] (Demo.only_closed 2))
                (state_event true) 2 3).
  assert (delivered_to 3
            (trace (snd (send_msg_to_websockets (state_event true)
                           (Demo.server [1; 2; 3] (Demo.only_closed 2)))))
          = []) as Hnone by reflexivity.
  rewrite Hnone in Hclaim. discriminate Hclaim.
  - apply py_in_true. reflexivity.
  - reflexivity.
  - intros x Hx. unfold Demo.server, Demo.only_closed. simpl.
    by apply Nat.eqb_neq.
  - apply py_in_true. reflexivity.
  - discriminate.
Qed.

Lemma broadcast_stops_at_failing_send_witness :
  closed (Demo.server [1; 2; 3] (Demo.only_closed 2)) 2 = true
  /\ send_msg_to_websockets (state_event true)
       (Demo.server [1; 2; 3] (Demo.only_closed 2))
     = (Raise WebSocketClosedError,
        add_trace [WriteMessage 1 (Json.dumps (state_event true));
                   WriteFailed 2 (Json.dumps (state_event true))]
          (Demo.server [1; 2; 3] (Demo.only_closed 2))).
Proof.
  split; [reflexivity|].
  apply (@broadcast_stops_at_failing_send probe_camera (state_event true)
           (Demo.server [1; 2; 3] (Demo.only_closed 2)) [1] [3] 2).
  - reflexivity.
  - intros x Hx. apply list_elem_of_singleton in Hx. subst x. reflexivity.
  - reflexivity.
Defined.

(** C10, refuted as stated: with the second of three connections closed
    the broadcast reaches the first subscriber only. *)
Lemma broadcast_misses_subscribers_behind_a_closed_one :
  ~ (forall (st : @State probe_camera) (msg_json : Json.pydict),
        recipients (trace (snd (send_msg_to_websockets msg_json st)))
        = recipients (trace st) ++ websockets st).
Proof.
  intros Hclaim.
  specialize (Hclaim (Demo.server [1; 2; 3] (Demo.only_closed 2)) (state_event true)).
  assert (recipients
            (trace (snd (send_msg_to_websockets (state_event true)
                           (Demo.server [1; 2; 3] (Demo.only_closed 2)))))
          = [1]) as Hone by reflexivity.
  rewrite Hone in Hclaim. discriminate Hclaim.
Qed.

Lemma broadcast_reaches_every_open_subscriber_witness :
  (forall w, w ∈ websockets (Demo.server [1; 2; 3] Demo.all_open) ->
             closed (Demo.server [1; 2; 3] Demo.all_open) w = false)
  /\ recipients
       (trace (snd (send_msg_to_websockets (state_event true)
                      (Demo.server [1; 2; 3] Demo.all_open))))
     = recipients (trace (Demo.server [1; 2; 3] Demo.all_open)) ++ [1; 2; 3].
Proof.
  assert (forall w, w ∈ websockets (Demo.server [1; 2; 3] Demo.all_open) ->
                    closed (Demo.server [1; 2; 3] Demo.all_open) w = false) as Hopen.
  { intros w _. reflexivity. }
  split; [exact Hopen|].
  destruct (@broadcast_reaches_every_open_subscriber probe_camera (state_event true)
              Demo.usb_add (Demo.server [1; 2; 3] Demo.all_open) Hopen)
    as (_ & Hrec & _).
  exact Hrec.
Defined.

(** C8, refuted as stated: two invocations leave two started
    observers. *)
Lemma udev_init_twice_starts_two_observers :
  ~ (forall n, length (started (udev_init_times n (Demo.server [1] Demo.all_open))) <= 1).
Proof.
  intros Hclaim. specialize (Hclaim 2). simpl in Hclaim. lia.
Qed.


(** The frame that follows a completed removal, spelled out: handler 1
    is out of the registry and is written to nevertheless. *)
Example frame_in_hand_is_sent_after_the_removal :
  let c := run_schedule [ActLoop; ActRemove 1; ActLoop]
             (start_broadcast (state_event true) (Demo.server [1; 2] Demo.all_open)) in
  websockets (shared c) = [2]
  /\ trace (shared c) = [WriteMessage 1 (wire_schema true)]
  /\ loop c = Running 1.
Proof. vm_compute. repeat split. Qed.

(** A handler appended while the broadcast runs is reached by it, after
    its own initialisation or before it. *)
Example addition_during_broadcast_is_reached :
  let c := run_schedule
             [ActLoop; ActAppend 2; ActLoop; ActInit 2; ActLoop; ActLoop; ActLoop]
             (start_broadcast (state_event true) (Demo.server [1] Demo.all_open)) in
  loop c = Finished
  /\ trace (shared c)
     = [WriteMessage 1 (wire_schema true);
        WriteMessage 2 (wire_schema false);
        WriteMessage 2 (wire_schema true)].
Proof. vm_compute. repeat split. Qed.


Lemma append_then_init_is_add_websocket_witness :
  let c := start_broadcast (state_event true) (Demo.server [1] Demo.all_open) in
  initialising c = []
  /\ trace (shared (conc_step (ActInit 2) (conc_step (ActAppend 2) c)))
     = trace (snd (add_websocket 2 (shared c)))
  /\ trace (snd (add_websocket 2 (shared c))) = [WriteMessage 2 (wire_schema false)].
Proof.
  intros c. split; [reflexivity|]. split.
  - destruct (@append_then_init_is_add_websocket probe_camera 2 c eq_refl) as [Hsame _].
    by rewrite Hsame.
  - reflexivity.
Defined.

(** * More on the registry and the device events *)

Section RegistryFacts.

Context {camera_api : CameraApi}.

Lemma py_remove_last (w : WebSocket) (l : list WebSocket) :
  w ∉ l -> py_remove w (l ++ [w]) = l.
Proof.
  induction l as [|y l IH]; simpl; intros Hno.
  - by rewrite Nat.eqb_refl.
  - apply not_elem_of_cons in Hno as [Hne Hno].
    apply Nat.eqb_neq in Hne. rewrite Hne. by rewrite IH.
Qed.

Lemma delivered_to_broadcast_effects_absent (w : WebSocket)
    (is_closed : WebSocket -> bool) (payload : string) (l : list WebSocket) :
  w ∉ l -> delivered_to w (broadcast_effects is_closed payload l) = [].
Proof.
  induction l as [|y l IH]; simpl; [done|].
  intros Hno. apply not_elem_of_cons in Hno as [Hne Hno].
  destruct (is_closed y); simpl; [done|].
  apply Nat.eqb_neq in Hne. rewrite Hne. auto.
Qed.

Lemma broadcast_result_raise (is_closed : WebSocket -> bool) (l : list WebSocket)
    (e : exn) :
  broadcast_result is_closed l = Raise e <-> exists w, w ∈ l /\ is_closed w = true.
Proof.
  unfold broadcast_result. destruct (existsb is_closed l) eqn:Hex.
  - apply existsb_exists in Hex as (w & Hin & Hw). split.
    + intros _. exists w. split; [by apply list_elem_of_In | done].
    + intros _. by destruct e.
  - split; [discriminate|]. intros (w & Hin & Hw).
    assert (existsb is_closed l = true) as Hyes.
    { apply existsb_exists. exists w. split; [by apply list_elem_of_In | done]. }
    congruence.
Qed.

Lemma send_msg_to_websockets_first_closed (msg_json : Json.pydict) (st : State)
    (before after : list WebSocket) (w : WebSocket) :
  websockets st = before ++ w :: after ->
  (forall x, x ∈ before -> closed st x = false) ->
  closed st w = true ->
  send_msg_to_websockets msg_json st
  = (Raise WebSocketClosedError,
     add_trace (map (fun x => WriteMessage x (Json.dumps msg_json)) before
                ++ [WriteFailed w (Json.dumps msg_json)]) st).
Proof.
  intros Hws Hopen Hw.
  destruct (broadcast_effects_first_closed (closed st) (Json.dumps msg_json)
              before after w Hopen Hw) as [Heff Hres].
  rewrite send_msg_to_websockets_run, Hws. by rewrite Heff, Hres.
Qed.

(** X1: unsubscribing cannot fail and calls no collaborator; on a registry
    without duplicates the handler is gone afterwards, and unsubscribing a
    second time changes nothing. *)
Theorem remove_websocket_quiet_and_idempotent (w : WebSocket) (st : State) :
  NoDup (websockets st) ->
  let st' := snd (remove_websocket w st) in
  fst (remove_websocket w st) = Ok tt
  /\ trace st' = trace st
  /\ camera st' = camera st
  /\ (w ∉ websockets st')
  /\ (forall x, x <> w -> x ∈ websockets st' <-> x ∈ websockets st)
  /\ remove_websocket w st' = (Ok tt, st').
Proof.
  intros Hnd st'. subst st'. rewrite remove_websocket_run. cbn [fst snd].
  destruct (py_in w (websockets st)) eqn:Hin.
  - cbn [trace camera websockets set_websockets].
    assert (w ∉ py_remove w (websockets st)) as Hout.
    { intros Hx. apply elem_of_py_remove in Hx as [_ Hne]; done. }
    repeat split; try done.
    + intros Hx. by apply elem_of_py_remove_inv in Hx.
    + intros Hx. apply elem_of_py_remove; done.
    + rewrite remove_websocket_run. cbn [websockets set_websockets].
      apply py_in_false in Hout. by rewrite Hout.
  - repeat split; try done.
    + by apply py_in_false.
    + rewrite remove_websocket_run. by rewrite Hin.
Qed.

(** X2: subscribing a new handler and unsubscribing it again gives the registry
    back as it was, entry for entry, whether or not the initialisation
    could be sent. *)
Theorem add_then_remove_restores_registry (w : WebSocket) (st : State) :
  w ∉ websockets st ->
  websockets (snd (remove_websocket w (snd (add_websocket w st)))) = websockets st.
Proof.
  intros Hnew. rewrite remove_websocket_websockets, add_websocket_websockets.
  pose proof Hnew as Hnew'. apply py_in_false in Hnew'. rewrite Hnew'.
  assert (py_in w (websockets st ++ [w]) = true) as ->.
  { apply py_in_true. apply elem_of_app. right. by apply list_elem_of_singleton. }
  by apply py_remove_last.
Qed.

(** X3: a registered handler that unsubscribes and subscribes again is moved to
    the end of the delivery order and gets a new initialisation message,
    the wire text whose value field is the connection state the camera
    holds, not the text with the other value. *)
Theorem resubscribing_moves_to_the_end (w : WebSocket) (st : State) :
  NoDup (websockets st) -> w ∈ websockets st -> closed st w = false ->
  let st' := snd (add_websocket w (snd (remove_websocket w st))) in
  websockets st' = py_remove w (websockets st) ++ [w]
  /\ last (websockets st') = Some w
  /\ delivered_to w (trace st')
     = delivered_to w (trace st) ++ [wire_schema (get_connect (camera st))]
  /\ wire_schema (get_connect (camera st))
     <> wire_schema (negb (get_connect (camera st))).
Proof.
  intros Hnd Hin Hopen st'. subst st'.
  rewrite remove_websocket_run. cbn [snd].
  apply py_in_true in Hin. rewrite Hin.
  assert (w ∉ py_remove w (websockets st)) as Hout.
  { intros Hx. apply elem_of_py_remove in Hx as [_ Hne]; done. }
  rewrite add_websocket_run. cbn [websockets set_websockets closed camera].
  apply py_in_false in Hout. rewrite Hout, Hopen.
  cbn [websockets trace add_trace set_websockets].
  split; [done|]. split; [apply last_snoc|]. split.
  - rewrite delivered_to_app, dumps_state_event. simpl. by rewrite Nat.eqb_refl.
  - intros Heq. apply wire_schema_inj in Heq. by destruct (get_connect (camera st)).
Qed.

(** X4: a handler whose initialisation cannot be sent stays registered: the
    error leaves [add_websocket] after the handler was appended, and while
    it stays closed and registered every later broadcast reaches the
    handlers registered before it and then raises. *)
Theorem failed_initialisation_keeps_the_handler (w : WebSocket) (st : State)
    (msg_json : Json.pydict) :
  w ∉ websockets st -> closed st w = true ->
  (forall x, x ∈ websockets st -> closed st x = false) ->
  let st' := snd (add_websocket w st) in
  let st'' := snd (send_msg_to_websockets msg_json st') in
  fst (add_websocket w st) = Raise WebSocketClosedError
  /\ websockets st' = websockets st ++ [w]
  /\ delivered_to w (trace st') = delivered_to w (trace st)
  /\ fst (send_msg_to_websockets msg_json st') = Raise WebSocketClosedError
  /\ recipients (trace st'') = recipients (trace st') ++ websockets st.
Proof.
  intros Hnew Hw Hopen st' st''.
  assert (fst (add_websocket w st) = Raise WebSocketClosedError) as Hres.
  { unfold add_websocket, bind, get. apply py_in_false in Hnew. rewrite Hnew. simpl.
    unfold send_init_event_to_websocket, bind, camera_get_connect, modify. simpl.
    unfold write_message, bind, get. simpl. by rewrite Hw. }
  assert (st' = add_trace
                  [WriteFailed w (Json.dumps (state_event (get_connect (camera st))))]
                  (set_websockets (websockets st ++ [w]) st)) as Hst'.
  { subst st'. rewrite add_websocket_run.
    apply py_in_false in Hnew. by rewrite Hnew, Hw. }
  split; [exact Hres|]. split; [by rewrite Hst'|].
  split.
  { rewrite Hst'. cbn [trace add_trace set_websockets].
    rewrite delivered_to_app. simpl. by rewrite app_nil_r. }
  assert (send_msg_to_websockets msg_json st'
          = (Raise WebSocketClosedError,
             add_trace (map (fun x => WriteMessage x (Json.dumps msg_json)) (websockets st)
                        ++ [WriteFailed w (Json.dumps msg_json)]) st')) as Hrun.
  { apply (send_msg_to_websockets_first_closed msg_json st' (websockets st) [] w).
    - by rewrite Hst'.
    - rewrite Hst'. exact Hopen.
    - by rewrite Hst'. }
  subst st''. rewrite Hrun. cbn [fst snd]. split; [done|].
  cbn [trace add_trace]. rewrite !recipients_app, recipients_frames.
  simpl. by rewrite app_nil_r.
Qed.

End RegistryFacts.

Section EventFacts.

Context {camera_api : CameraApi}.

Lemma usb_device_event_run (device : Device) (st : State) :
  usb_device_event device st
  = if qualifies device
    then (broadcast_result (closed st) (websockets st),
          add_trace
            (broadcast_effects (closed st)
               (Json.dumps (state_event (get_connect (load (camera st)))))
               (websockets st))
            (refreshed device st))
    else (Ok tt, st).
Proof.
  destruct (qualifies device) eqn:Hq.
  - rewrite (usb_device_event_qualifying device st Hq).
    by rewrite send_msg_to_websockets_run.
  - unfold usb_device_event. by rewrite Hq.
Qed.

(** X5: a device event never touches the registry; it ends in an error exactly
    when it qualifies and some registered handler's connection is closed,
    and the camera has been probed by then all the same. *)
Theorem usb_device_event_outcome (device : Device) (st : State) :
  let st' := snd (usb_device_event device st) in
  websockets st' = websockets st
  /\ camera st' = (if qualifies device then load (camera st) else camera st)
  /\ (forall e, fst (usb_device_event device st) = Raise e
                <-> qualifies device = true
                    /\ exists w, w ∈ websockets st /\ closed st w = true).
Proof.
  intros st'. subst st'. rewrite usb_device_event_run.
  destruct (qualifies device); cbn [fst snd].
  - split; [done|]. split; [done|]. intros e.
    rewrite broadcast_result_raise. tauto.
  - split; [done|]. split; [done|]. intros e. split; [discriminate|].
    by intros [? _].
Qed.

(** X6: no stale state for a late subscriber: a handler that subscribes after a
    qualifying device event is initialised with the wire text whose value
    field is the state that event probed, the text the event broadcast; it
    is not the text of the other value, so when the probe changed the
    state it is not the text of the state held before. *)
Theorem late_subscriber_gets_the_probed_state (device : Device) (w : WebSocket)
    (st : State) :
  qualifies device = true -> w ∉ websockets st -> closed st w = false ->
  let st1 := snd (usb_device_event device st) in
  let st2 := snd (add_websocket w st1) in
  let probed := get_connect (load (camera st)) in
  delivered_to w (trace st2) = delivered_to w (trace st) ++ [wire_schema probed]
  /\ (exists line,
        trace st1 = trace st ++ [LogInfo line; CameraLoad]
                    ++ broadcast_effects (closed st) (wire_schema probed)
                         (websockets st))
  /\ (get_connect (camera st) <> probed ->
      wire_schema probed <> wire_schema (get_connect (camera st))).
Proof.
  intros Hq Hnew Hopen st1 st2 probed. split; [|split].
  2:{ subst st1. rewrite usb_device_event_trace, Hq, dumps_state_event.
      by eexists. }
  2:{ intros Hne Heq. apply wire_schema_inj in Heq. congruence. }
  subst st2 st1 probed. rewrite usb_device_event_run, Hq, dumps_state_event.
  cbn [snd].
  rewrite add_websocket_run.
  cbn [websockets closed camera add_trace refreshed emit set_camera].
  pose proof Hnew as Hnew'. apply py_in_false in Hnew'. rewrite Hnew', Hopen.
  cbn [trace add_trace set_websockets].
  rewrite !delivered_to_app.
  rewrite delivered_to_broadcast_effects_absent by done.
  rewrite dumps_state_event.
  simpl. rewrite Nat.eqb_refl, !delivered_to_app. simpl.
  by rewrite !app_nil_r.
Qed.

(** X7: order on one connection: a handler that subscribes and then sees a
    qualifying device event has received, in this order, the wire text
    whose value field is the state held at subscription and the wire text
    whose value field is the newly probed state; when the probe changed
    the state the two texts differ, so the order can be told. *)
Theorem initialisation_precedes_broadcast (device : Device) (w : WebSocket)
    (st : State) :
  qualifies device = true -> w ∉ websockets st -> NoDup (websockets st) ->
  (forall x, x ∈ websockets st -> closed st x = false) -> closed st w = false ->
  let st1 := snd (add_websocket w st) in
  let st2 := snd (usb_device_event device st1) in
  delivered_to w (trace st2)
  = delivered_to w (trace st)
    ++ [wire_schema (get_connect (camera st));
        wire_schema (get_connect (load (camera st)))]
  /\ (get_connect (camera st) <> get_connect (load (camera st)) ->
      wire_schema (get_connect (camera st))
      <> wire_schema (get_connect (load (camera st)))).
Proof.
  intros Hq Hnew Hnd Hopen Hw st1 st2. split.
  2:{ intros Hne Heq. apply wire_schema_inj in Heq. congruence. }
  subst st2 st1.
  rewrite add_websocket_run.
  pose proof Hnew as Hnew'. apply py_in_false in Hnew'. rewrite Hnew', Hw.
  rewrite usb_device_event_run, Hq. cbn [snd].
  cbn [websockets closed camera trace add_trace refreshed emit set_camera
       set_websockets].
  destruct (broadcast_effects_all_open (closed st)
              (Json.dumps (state_event (get_connect (load (camera st)))))
              (websockets st ++ [w])) as [Heff _].
  { intros x Hx. apply elem_of_app in Hx as [Hx|Hx]; [by apply Hopen|].
    apply list_elem_of_singleton in Hx. by subst. }
  rewrite Heff, !delivered_to_app.
  rewrite delivered_to_frames_once.
  - rewrite !dumps_state_event.
    simpl. rewrite Nat.eqb_refl. by rewrite !app_nil_r, <- app_assoc.
  - apply NoDup_app. split; [done|]. split; [|apply NoDup_singleton].
    intros x Hx Hx'. apply list_elem_of_singleton in Hx'. by subst.
  - apply elem_of_app. right. by apply list_elem_of_singleton.
Qed.

End EventFacts.

(** * Logging *)

Section LogRequestFacts.

Variable Float : Type.
Variable times_1000 : Float -> Float.

(** The name [log_request] puts last in the record, if any. *)
Lemma truthy_text (a : option string) : truthy a = true -> text a <> "".
Proof.
  destruct a as [s|]; simpl; [|discriminate].
  intros Hs. apply negb_true_iff in Hs. by apply String.eqb_neq in Hs.
Qed.

Lemma log_request_access {V : Type} (settings : list (string * V))
    (handler : RequestHandler Float) :
  has_key "log_function" settings = false ->
  log_request times_1000 settings handler
  = [AccessLog
       (if (get_status handler <? 400)%Z then access_log_info
        else if (get_status handler <? 500)%Z then access_log_warning
        else access_log_error)
       (if truthy (exc_name handler) then "%d %s %.2fms - %s "
        else if truthy (action_name handler) then "%d %s %.2fms - %s"
        else "%d %s %.2fms - Ok")
       (ArgInt (get_status handler)
        :: ArgStr (request_summary handler)
        :: ArgFloat (times_1000 (request_time handler))
        :: map ArgStr
             (if truthy (exc_name handler) then [text (exc_name handler)]
              else if truthy (action_name handler) then [text (action_name handler)]
              else []))].
Proof.
  intros Hno. unfold log_request. rewrite Hno.
  destruct (truthy (exc_name handler)); [done|].
  by destruct (truthy (action_name handler)).
Qed.

(** X9: without a [log_function] setting, [log_request] makes exactly one call,
    to the access log: with [info] below status 400, [warning] from 400 to
    499 and [error] from 500 on; with the status, the request summary and
    the request time in milliseconds as the first three arguments; with as
    many arguments as the format has conversion specifiers; and with a
    fourth argument, never the empty string, only when the handler has an
    exception name or an action name, the exception name going first. *)
Theorem log_request_one_access_record {V : Type} (settings : list (string * V))
    (handler : RequestHandler Float) :
  has_key "log_function" settings = false ->
  exists method format names,
    log_request times_1000 settings handler
    = [AccessLog method format
         (ArgInt (get_status handler)
          :: ArgStr (request_summary handler)
          :: ArgFloat (times_1000 (request_time handler))
          :: map ArgStr names)]
    /\ (method = access_log_info <-> (get_status handler < 400)%Z)
    /\ (method = access_log_warning <-> (400 <= get_status handler < 500)%Z)
    /\ (method = access_log_error <-> (500 <= get_status handler)%Z)
    /\ directives format = 3 + length names
    /\ names = (if truthy (exc_name handler) then [text (exc_name handler)]
                else if truthy (action_name handler)
                     then [text (action_name handler)]
                     else [])
    /\ Forall (fun name => name <> "") names.
Proof.
  intros Hno. do 3 eexists.
  split; [by apply log_request_access|].
  split; [|split; [|split]].
  - destruct (Z.ltb_spec (get_status handler) 400);
      [|destruct (Z.ltb_spec (get_status handler) 500)];
      split; intros; try discriminate; try lia; done.
  - destruct (Z.ltb_spec (get_status handler) 400);
      [|destruct (Z.ltb_spec (get_status handler) 500)];
      split; intros; try discriminate; try lia; done.
  - destruct (Z.ltb_spec (get_status handler) 400);
      [|destruct (Z.ltb_spec (get_status handler) 500)];
      split; intros; try discriminate; try lia; done.
  - destruct (truthy (exc_name handler)) eqn:He;
      [|destruct (truthy (action_name handler)) eqn:Ha];
      (split; [reflexivity|]); (split; [reflexivity|]);
      repeat constructor; by apply truthy_text.
Qed.

(** X10: with the settings [__init__] passes to the application, whatever the
    command line, [log_request] never calls a [log_function]: every
    completed request gives one access-log record. *)
Theorem log_request_with_init_settings (args : Args)
    (handler : RequestHandler Float) :
  has_key "log_function" (init_settings args) = false
  /\ (forall h, LogFunction h
                ∉ log_request times_1000 (init_settings args) handler)
  /\ length (log_request times_1000 (init_settings args) handler) = 1.
Proof.
  assert (has_key "log_function" (init_settings args) = false) as Hno by reflexivity.
  split; [exact Hno|].
  rewrite (log_request_access (init_settings args) handler Hno).
  split; [|reflexivity].
  intros h Hin. apply list_elem_of_singleton in Hin. discriminate Hin.
Qed.

End LogRequestFacts.

Section ParseArgsFacts.

Lemma log_path_of_default (conf : option (gmap string string)) :
  (forall m, conf = Some m -> m !! "log_path" = None) ->
  log_path_of conf = "server.log".
Proof.
  intros Hno. destruct conf as [m|]; simpl; [|done].
  case_decide; [done|]. by rewrite (Hno m eq_refl).
Qed.

Lemma log_path_of_given (m : gmap string string) (p : string) :
  m !! "log_path" = Some p -> log_path_of (Some m) = p.
Proof.
  intros Hp. simpl. case_decide as Hm; [|by rewrite Hp].
  subst m. by rewrite lookup_empty in Hp.
Qed.

Lemma parse_args_run (args : Args) (conf : option (gmap string string))
    (can_open : string -> bool) (lg : Logging) :
  parse_args args conf can_open lg
  = if (arg_stdout args || can_open (log_path_of conf))%bool
    then (Done tt,
          {| root_level := if arg_debug args then DEBUG else INFO;
             root_handlers :=
               root_handlers lg
               ++ [{| kind := if arg_stdout args then StreamHandler_stdout
                              else FileHandler (log_path_of conf) "a+";
                      handler_level := Some (if arg_debug args then DEBUG else INFO);
                      formatter := Some {| fmt_string := log_format;
                                           logging_pretty := true |} |}];
             opened := if arg_stdout args then opened lg
                       else opened lg ++ [(log_path_of conf, "a+")] |})
    else (OSError, lg).
Proof.
  unfold parse_args. destruct (arg_stdout args); simpl; [done|].
  by destruct (can_open (log_path_of conf)).
Qed.

(** X11: where the log goes.  With [--stdout] no file is opened and the call
    cannot fail, whatever the configuration says.  Without it exactly one
    file is opened, for appending: the configured [log_path], or
    [server.log] when there is no configuration, an empty one, or one
    without that key; and when that file cannot be opened the error leaves
    the root logger as it was. *)
Theorem parse_args_log_destination (args : Args) (conf : option (gmap string string))
    (can_open : string -> bool) (lg : Logging) :
  ((forall m, conf = Some m -> m !! "log_path" = None) ->
   log_path_of conf = "server.log")
  /\ (forall m p, conf = Some m -> m !! "log_path" = Some p -> log_path_of conf = p)
  /\ (arg_stdout args = true ->
      fst (parse_args args conf can_open lg) = Done tt
      /\ opened (snd (parse_args args conf can_open lg)) = opened lg)
  /\ (arg_stdout args = false -> can_open (log_path_of conf) = true ->
      fst (parse_args args conf can_open lg) = Done tt
      /\ opened (snd (parse_args args conf can_open lg))
         = opened lg ++ [(log_path_of conf, "a+")])
  /\ (arg_stdout args = false -> can_open (log_path_of conf) = false ->
      parse_args args conf can_open lg = (OSError, lg)).
Proof.
  split; [apply log_path_of_default|].
  split; [intros m p -> Hp; by apply log_path_of_given|].
  rewrite parse_args_run.
  split; [intros ->; done|].
  split; intros -> ->; done.
Qed.

(** X12: the handler and the root logger agree.  A successful call appends one
    new handler behind those the root logger already has, sets the handler
    and the root logger to the same level, [DEBUG] with [--debug] and
    [INFO] without, and gives the handler the pretty formatter. *)
Theorem parse_args_levels_agree (args : Args) (conf : option (gmap string string))
    (can_open : string -> bool) (lg : Logging) :
  fst (parse_args args conf can_open lg) = Done tt ->
  let lg' := snd (parse_args args conf can_open lg) in
  exists h,
    root_handlers lg' = root_handlers lg ++ [h]
    /\ handler_level h = Some (root_level lg')
    /\ root_level lg' = (if arg_debug args then DEBUG else INFO)
    /\ formatter h = Some {| fmt_string := log_format; logging_pretty := true |}
    /\ kind h = (if arg_stdout args then StreamHandler_stdout
                 else FileHandler (log_path_of conf) "a+").
Proof.
  rewrite parse_args_run.
  destruct (arg_stdout args || can_open (log_path_of conf))%bool; [|discriminate].
  intros _ lg'. eexists. repeat split.
Qed.

Lemma parse_args_times_handlers (n : nat) (args : Args)
    (conf : option (gmap string string)) (can_open : string -> bool) (lg : Logging) :
  (arg_stdout args || can_open (log_path_of conf))%bool = true ->
  length (root_handlers (parse_args_times n args conf can_open lg))
  = length (root_handlers lg) + n.
Proof.
  intros Hok. revert lg. induction n as [|n IH]; intros lg; simpl; [lia|].
  rewrite IH, parse_args_run, Hok. simpl. rewrite length_app. simpl. lia.
Qed.

(** X13: set-up is not idempotent: every successful call adds one more handler
    to the root logger, so after [n] calls a record is written [n] times
    more often than before. *)
Theorem parse_args_adds_a_handler_each_time (n : nat) (args : Args)
    (conf : option (gmap string string)) (can_open : string -> bool) (lg : Logging) :
  arg_stdout args = true \/ can_open (log_path_of conf) = true ->
  length (root_handlers (parse_args_times n args conf can_open lg))
  = length (root_handlers lg) + n.
Proof.
  intros Hok. apply parse_args_times_handlers.
  destruct Hok as [-> | ->]; [done | apply orb_true_r].
Qed.

End ParseArgsFacts.

(** * Configuration *)

Section LoadConfigFacts.

Variable FS : Type.
Variable path_exists : FS -> string -> bool.
Variable makedirs : FS -> string -> option FS.
Variable read_conf : string -> Confs.

(** What is assumed of [os.makedirs]: when it returns, the path exists and
    nothing that existed is gone. *)
Hypothesis makedirs_creates :
  forall fs p fs', makedirs fs p = Some fs' -> path_exists fs' p = true.
Hypothesis makedirs_keeps :
  forall fs p fs' q,
    makedirs fs p = Some fs' -> path_exists fs q = true -> path_exists fs' q = true.

Lemma ensure_dir_done (p : string) (fs fs' : FS) (r : os_result unit) :
  ensure_dir path_exists makedirs p fs = (r, fs') ->
  (r = Done tt \/ r = OSError)
  /\ (forall q, path_exists fs q = true -> path_exists fs' q = true)
  /\ (r = Done tt -> path_exists fs' p = true)
  /\ (path_exists fs p = true -> r = Done tt /\ fs' = fs).
Proof.
  unfold ensure_dir. destruct (path_exists fs p) eqn:Hp.
  - intros [= <- <-]. repeat split; auto.
  - destruct (makedirs fs p) as [fs1|] eqn:Hmk; intros [= <- <-].
    + repeat split; eauto; discriminate.
    + repeat split; auto; discriminate.
Qed.

Lemma load_config_done (server_settings : gmap string string) (fs fs' : FS)
    (cfg : Config) :
  load_config path_exists makedirs read_conf server_settings fs = (Done cfg, fs') ->
  exists name fs1 fs2,
    server_settings !! "pictures_folder" = Some (pictures_folder cfg)
    /\ server_settings !! "thumbnails_folder" = Some (thumbnails_folder cfg)
    /\ server_settings !! "external_folder" = Some (external_folder cfg)
    /\ server_settings !! "server_conf" = Some name
    /\ confs cfg = read_conf name
    /\ pictures_path cfg = path_join (app_save_path (confs cfg)) (pictures_folder cfg)
    /\ thumbnails_path cfg
       = path_join (app_save_path (confs cfg)) (thumbnails_folder cfg)
    /\ external_path cfg = path_join (app_save_path (confs cfg)) (external_folder cfg)
    /\ ensure_dir path_exists makedirs (pictures_path cfg) fs = (Done tt, fs1)
    /\ ensure_dir path_exists makedirs (thumbnails_path cfg) fs1 = (Done tt, fs2)
    /\ ensure_dir path_exists makedirs (external_path cfg) fs2 = (Done tt, fs').
Proof.
  unfold load_config.
  destruct (server_settings !! "pictures_folder") as [pictures|]; [|discriminate].
  destruct (server_settings !! "thumbnails_folder") as [thumbnails|]; [|discriminate].
  destruct (server_settings !! "external_folder") as [external|]; [|discriminate].
  destruct (server_settings !! "server_conf") as [name|]; [|discriminate].
  cbn zeta.
  destruct (ensure_dir path_exists makedirs
              (path_join (app_save_path (read_conf name)) pictures) fs)
    as [[[]| |k1] fs1] eqn:H1; [|discriminate|discriminate].
  destruct (ensure_dir path_exists makedirs
              (path_join (app_save_path (read_conf name)) thumbnails) fs1)
    as [[[]| |k2] fs2] eqn:H2; [|discriminate|discriminate].
  destruct (ensure_dir path_exists makedirs
              (path_join (app_save_path (read_conf name)) external) fs2)
    as [[[]| |k3] fs3] eqn:H3; [|discriminate|discriminate].
  intros [= <- <-]. exists name, fs1, fs2. cbn. repeat split; done.
Qed.

(** X14: when [load_config] returns, the three directories exist, each the join
    of the configured save path with its folder, so that a folder given as
    an absolute path is used as it is; and whatever existed before still
    exists. *)
Theorem load_config_makes_the_directories (server_settings : gmap string string)
    (fs fs' : FS) (cfg : Config) :
  load_config path_exists makedirs read_conf server_settings fs = (Done cfg, fs') ->
  path_exists fs' (pictures_path cfg) = true
  /\ path_exists fs' (thumbnails_path cfg) = true
  /\ path_exists fs' (external_path cfg) = true
  /\ pictures_path cfg = path_join (app_save_path (confs cfg)) (pictures_folder cfg)
  /\ thumbnails_path cfg = path_join (app_save_path (confs cfg)) (thumbnails_folder cfg)
  /\ external_path cfg = path_join (app_save_path (confs cfg)) (external_folder cfg)
  /\ (starts_with_sep (pictures_folder cfg) = true ->
      pictures_path cfg = pictures_folder cfg)
  /\ (forall q, path_exists fs q = true -> path_exists fs' q = true).
Proof.
  intros Hrun.
  destruct (load_config_done _ _ _ _ Hrun)
    as (name & fs1 & fs2 & _ & _ & _ & _ & _ & Hp1 & Hp2 & Hp3 & H1 & H2 & H3).
  apply ensure_dir_done in H1 as (_ & Hk1 & Hd1 & _).
  apply ensure_dir_done in H2 as (_ & Hk2 & Hd2 & _).
  apply ensure_dir_done in H3 as (_ & Hk3 & Hd3 & _).
  repeat split; auto.
  intros Habs. rewrite Hp1. unfold path_join. by rewrite Habs.
Qed.

(** X15: loading the configuration a second time finds the directories in
    place: it creates nothing, cannot fail, and sets the same attributes. *)
Theorem load_config_again_creates_nothing (server_settings : gmap string string)
    (fs fs' : FS) (cfg : Config) :
  load_config path_exists makedirs read_conf server_settings fs = (Done cfg, fs') ->
  load_config path_exists makedirs read_conf server_settings fs' = (Done cfg, fs').
Proof.
  intros Hrun.
  destruct (load_config_done _ _ _ _ Hrun)
    as (name & fs1 & fs2 & Hf1 & Hf2 & Hf3 & Hname & Hcs & Hp1 & Hp2 & Hp3
        & H1 & H2 & H3).
  apply ensure_dir_done in H1 as (_ & Hk1 & Hd1 & _).
  apply ensure_dir_done in H2 as (_ & Hk2 & Hd2 & _).
  apply ensure_dir_done in H3 as (_ & Hk3 & Hd3 & _).
  assert (path_exists fs' (pictures_path cfg) = true) as He1 by auto.
  assert (path_exists fs' (thumbnails_path cfg) = true) as He2 by auto.
  assert (path_exists fs' (external_path cfg) = true) as He3 by auto.
  unfold load_config. rewrite Hf1, Hf2, Hf3, Hname. cbn zeta.
  rewrite <- Hcs, <- Hp1, <- Hp2, <- Hp3.
  unfold ensure_dir. rewrite He1, He2, He3.
  destruct cfg; cbn in *. by subst.
Qed.

(** X16: a missing key stops [load_config] before it touches the file system:
    when one of the four keys it reads is absent from the server settings
    it raises [KeyError] for an absent key and creates no directory. *)
Theorem load_config_missing_key (server_settings : gmap string string) (fs : FS)
    (key : string) :
  key ∈ ["pictures_folder"; "thumbnails_folder"; "external_folder"; "server_conf"] ->
  server_settings !! key = None ->
  exists k,
    server_settings !! k = None
    /\ load_config path_exists makedirs read_conf server_settings fs = (KeyError k, fs).
Proof.
  intros Hkey Hnone. unfold load_config.
  destruct (server_settings !! "pictures_folder") as [pictures|] eqn:H1;
    [|by exists "pictures_folder"].
  destruct (server_settings !! "thumbnails_folder") as [thumbnails|] eqn:H2;
    [|by exists "thumbnails_folder"].
  destruct (server_settings !! "external_folder") as [external|] eqn:H3;
    [|by exists "external_folder"].
  destruct (server_settings !! "server_conf") as [name|] eqn:H4;
    [|by exists "server_conf"].
  repeat (apply elem_of_cons in Hkey as [->|Hkey]; [congruence|]).
  by apply elem_of_nil in Hkey.
Qed.

End LoadConfigFacts.

(** * Routing *)

Section RegexFacts.

Import Re.

Lemma append_nil_l (s : string) : "" +:+ s = s.
Proof. reflexivity. Qed.

Lemma append_cons (c : ascii) (s1 s2 : string) :
  String c s1 +:+ s2 = String c (s1 +:+ s2).
Proof. reflexivity. Qed.

Lemma append_nil_r (s : string) : s +:+ "" = s.
Proof. induction s as [|c s IH]; [done|]. by rewrite append_cons, IH. Qed.

Lemma matches_Empty (s : string) : matches Empty s = false.
Proof. induction s as [|c s IH]; simpl; auto. Qed.

Lemma matches_Eps (s : string) : matches Eps s = true <-> s = "".
Proof.
  destruct s as [|c s]; simpl; [done|].
  rewrite matches_Empty. split; discriminate.
Qed.

Lemma matches_Alt (a b : regex) (s : string) :
  matches (Alt a b) s = (matches a s || matches b s)%bool.
Proof. revert a b. induction s as [|c s IH]; intros a b; simpl; auto. Qed.

(** A sequence matches when the string splits into a part for each
    side. *)
Lemma matches_Seq (a b : regex) (s : string) :
  matches (Seq a b) s = true
  <-> exists s1 s2, s = s1 +:+ s2 /\ matches a s1 = true /\ matches b s2 = true.
Proof.
  revert a b. induction s as [|c s IH]; intros a b.
  - simpl. rewrite andb_true_iff. split.
    + intros [Ha Hb]. by exists "", "".
    + intros (s1 & s2 & Hs & Ha & Hb).
      destruct s1; [|discriminate]. destruct s2; [|discriminate]. done.
  - simpl. destruct (nullable a) eqn:Hnull.
    + rewrite matches_Alt, orb_true_iff, IH. split.
      * intros [(s1 & s2 & -> & Ha & Hb) | Hb].
        -- by exists (String c s1), s2.
        -- exists "", (String c s). by destruct a.
      * intros (s1 & s2 & Hs & Ha & Hb). destruct s1 as [|c1 s1].
        -- rewrite append_nil_l in Hs. subst s2. by right.
        -- rewrite append_cons in Hs. injection Hs as -> ->.
           left. by exists s1, s2.
    + rewrite IH. split.
      * intros (s1 & s2 & -> & Ha & Hb). by exists (String c s1), s2.
      * intros (s1 & s2 & Hs & Ha & Hb). destruct s1 as [|c1 s1].
        -- simpl in Ha. congruence.
        -- rewrite append_cons in Hs. injection Hs as -> ->. by exists s1, s2.
Qed.

Lemma matches_Chr (c : ascii) (s : string) :
  matches (Chr c) s = true <-> s = String c "".
Proof.
  destruct s as [|c' s]; simpl; [split; discriminate|].
  destruct (Ascii.eqb_spec c' c) as [->|Hne].
  - rewrite matches_Eps. split; [by intros -> | by intros [= ->]].
  - rewrite matches_Empty. split; [discriminate | by intros [= -> _]].
Qed.

Lemma matches_Seq_Chr (c : ascii) (r : regex) (s : string) :
  matches (Seq (Chr c) r) s = true
  <-> exists s', s = String c s' /\ matches r s' = true.
Proof.
  rewrite matches_Seq. split.
  - intros (s1 & s2 & -> & H1 & H2). apply matches_Chr in H1 as ->.
    by exists s2.
  - intros (s' & -> & Hr). exists (String c ""), s'.
    split; [done|]. split; [by apply matches_Chr | done].
Qed.

Lemma matches_Seq_Eps_r (r : regex) (s : string) :
  matches (Seq r Eps) s = matches r s.
Proof.
  apply eq_true_iff_eq. rewrite matches_Seq. split.
  - intros (s1 & s2 & -> & H1 & H2). apply matches_Eps in H2 as ->.
    by rewrite append_nil_r.
  - intros Hr. exists s, "". rewrite append_nil_r.
    split; [done|]. split; [done | by apply matches_Eps].
Qed.

(** A starred character class matches the strings made of its
    characters. *)
Lemma matches_Star_class (k : regex) (p : ascii -> bool) (s : string) :
  (forall c, deriv c k = if p c then Eps else Empty) ->
  matches (Star k) s = all_chars p s.
Proof.
  intros Hk. induction s as [|c s IH]; simpl; [done|].
  rewrite Hk. apply eq_true_iff_eq. rewrite matches_Seq, andb_true_iff.
  destruct (p c); split.
  - intros (s1 & s2 & -> & H1 & H2). apply matches_Eps in H1 as ->.
    rewrite append_nil_l in *. split; [done | congruence].
  - intros [_ Hall]. exists "", s.
    split; [done|]. split; [done | congruence].
  - intros (s1 & s2 & _ & H1 & _). by rewrite matches_Empty in H1.
  - intros [? _]. discriminate.
Qed.

Lemma matches_class (k : regex) (p : ascii -> bool) (s : string) :
  nullable k = false ->
  (forall c, deriv c k = if p c then Eps else Empty) ->
  matches k s = true <-> exists c, s = String c "" /\ p c = true.
Proof.
  intros Hnull Hk. destruct s as [|c s]; simpl.
  - rewrite Hnull. split; [discriminate | by intros (c & ? & _)].
  - rewrite Hk. destruct (p c) eqn:Hp.
    + rewrite matches_Eps. split; [intros ->; by exists c|].
      by intros (c' & [= -> ->] & _).
    + rewrite matches_Empty. split; [discriminate|].
      intros (c' & [= -> ->] & Hp'). congruence.
Qed.

(** One or more characters of a class. *)
Lemma matches_Plus_class (k : regex) (p : ascii -> bool) (s : string) :
  nullable k = false ->
  (forall c, deriv c k = if p c then Eps else Empty) ->
  matches (Plus k) s = true <-> s <> "" /\ all_chars p s = true.
Proof.
  intros Hnull Hk. unfold Plus. rewrite matches_Seq. split.
  - intros (s1 & s2 & -> & H1 & H2).
    apply (matches_class k p) in H1 as (c & -> & Hp); [|done|done].
    rewrite (matches_Star_class k p) in H2 by done.
    rewrite append_cons, append_nil_l. simpl. rewrite Hp, H2. done.
  - intros [Hne Hall]. destruct s as [|c s]; [done|].
    simpl in Hall. apply andb_true_iff in Hall as [Hp Hall].
    exists (String c ""), s. split; [done|]. split.
    + apply (matches_class k p); [done|done|]. by exists c.
    + by rewrite (matches_Star_class k p).
Qed.

(** The end of a compiled pattern: the end of the path, or the newline
    that ends it. *)
Lemma matches_at_end (r : regex) (path : string) :
  matches (Seq r at_end) path = true
  <-> exists s, (path = s \/ path = s +:+ String newline "") /\ matches r s = true.
Proof.
  rewrite matches_Seq. unfold at_end, Opt. split.
  - intros (s1 & s2 & -> & H1 & H2). exists s1. split; [|done].
    rewrite matches_Alt in H2. apply orb_true_iff in H2 as [H2|H2].
    + apply matches_Chr in H2 as ->. by right.
    + apply matches_Eps in H2 as ->. left. by rewrite append_nil_r.
  - intros (s & [-> | ->] & Hr).
    + exists s, "". rewrite append_nil_r. split; [done|]. split; [done|].
      rewrite matches_Alt. apply orb_true_iff. right. by apply matches_Eps.
    + exists s, (String newline ""). split; [done|]. split; [done|].
      rewrite matches_Alt. apply orb_true_iff. left. by apply matches_Chr.
Qed.

End RegexFacts.
Section RouteFacts.

Import Re.

Lemma matches_lits (prefix : string) (r : regex) (s : string) :
  matches (lits prefix r) s = true
  <-> exists s', s = prefix +:+ s' /\ matches r s' = true.
Proof.
  revert s. induction prefix as [|c prefix IH]; intros s; simpl.
  - split; [intros Hr; by exists s | by intros (s' & -> & Hr)].
  - rewrite matches_Seq_Chr. split.
    + intros (s1 & -> & Hr). apply IH in Hr as (s' & -> & Hr). by exists s'.
    + intros (s' & -> & Hr). exists (prefix +:+ s'). split; [done|].
      apply IH. by exists s'.
Qed.

Lemma matches_Opt_Chr (c : ascii) (s : string) :
  matches (Opt (Chr c)) s = true <-> s = "" \/ s = String c "".
Proof.
  unfold Opt. rewrite matches_Alt, orb_true_iff, matches_Chr, matches_Eps. tauto.
Qed.

Lemma deriv_Digit (c : ascii) : deriv c Digit = if is_digit c then Eps else Empty.
Proof. reflexivity. Qed.

Lemma deriv_AnyChar (c : ascii) : deriv c AnyChar = if is_any c then Eps else Empty.
Proof. reflexivity. Qed.

(** A rule whose pattern compiles to a literal prefix and a rest. *)
Lemma rule_matches_lits (pattern prefix : string) (rest : regex) (path : string) :
  compile pattern = Some (Seq (lits prefix rest) at_end) ->
  rule_matches pattern path = true
  <-> exists s s', is_path s path /\ s = prefix +:+ s' /\ matches rest s' = true.
Proof.
  intros Hc. unfold rule_matches. rewrite Hc, matches_at_end. split.
  - intros (s & Hpath & Hs). apply matches_lits in Hs as (s' & -> & Hr).
    by exists (prefix +:+ s'), s'.
  - intros (s & s' & Hpath & -> & Hr). exists (prefix +:+ s'). split; [done|].
    apply matches_lits. by exists s'.
Qed.

(** The rules with an optional last character. *)
Lemma rule_matches_optional (pattern prefix : string) (c : ascii) (path : string) :
  compile pattern = Some (Seq (lits prefix (Seq (Opt (Chr c)) Eps)) at_end) ->
  rule_matches pattern path = true
  <-> is_path prefix path \/ is_path (prefix +:+ String c "") path.
Proof.
  intros Hc. rewrite (rule_matches_lits pattern prefix _ path Hc). split.
  - intros (s & s' & Hpath & -> & Hr).
    rewrite matches_Seq_Eps_r in Hr. apply matches_Opt_Chr in Hr as [-> | ->].
    + left. by rewrite append_nil_r in Hpath.
    + by right.
  - intros [Hpath|Hpath].
    + exists prefix, "". rewrite append_nil_r. split; [done|]. split; [done|].
      rewrite matches_Seq_Eps_r. apply matches_Opt_Chr. by left.
    + exists (prefix +:+ String c ""), (String c ""). split; [done|]. split; [done|].
      rewrite matches_Seq_Eps_r. apply matches_Opt_Chr. by right.
Qed.

Lemma rule_config (path : string) :
  rule_matches "^/config/?" path = true
  <-> is_path "/config" path \/ is_path "/config/" path.
Proof. by apply (rule_matches_optional _ "/config" "/"). Qed.

Lemma rule_pictures (path : string) :
  rule_matches "^/pictures/?" path = true
  <-> is_path "/pictures" path \/ is_path "/pictures/" path.
Proof. by apply (rule_matches_optional _ "/pictures" "/"). Qed.

Lemma rule_ws (path : string) :
  rule_matches "^/ws/server?" path = true
  <-> is_path "/ws/serve" path \/ is_path "/ws/server" path.
Proof. by apply (rule_matches_optional _ "/ws/serve" "r"). Qed.

Lemma rule_snap (path : string) :
  rule_matches "^/snap/?" path = true
  <-> is_path "/snap" path \/ is_path "/snap/" path.
Proof. by apply (rule_matches_optional _ "/snap" "/"). Qed.

Lemma rule_auth (path : string) :
  rule_matches "^/auth/login/?" path = true
  <-> is_path "/auth/login" path \/ is_path "/auth/login/" path.
Proof. by apply (rule_matches_optional _ "/auth/login" "/"). Qed.

Lemma rule_picture (path : string) :
  rule_matches "^/pictures/(\d+)?" path = true
  <-> exists digits,
        is_path ("/pictures/" +:+ digits) path /\ all_chars is_digit digits = true.
Proof.
  rewrite (rule_matches_lits "^/pictures/(\d+)?" "/pictures/"
             (Seq (Opt (Seq (Plus Digit) Eps)) Eps) path eq_refl).
  split.
  - intros (s & d & Hpath & -> & Hr). exists d. split; [done|].
    rewrite matches_Seq_Eps_r in Hr. unfold Opt in Hr.
    rewrite matches_Alt, matches_Seq_Eps_r in Hr.
    apply orb_true_iff in Hr as [Hr|Hr].
    + by apply (matches_Plus_class Digit is_digit) in Hr as [_ Hr].
    + by apply matches_Eps in Hr as ->.
  - intros (d & Hpath & Hd). exists ("/pictures/" +:+ d), d.
    split; [done|]. split; [done|].
    rewrite matches_Seq_Eps_r. unfold Opt.
    rewrite matches_Alt, matches_Seq_Eps_r. apply orb_true_iff.
    destruct d as [|c d]; [right; done|]. left.
    by apply (matches_Plus_class Digit is_digit).
Qed.

Lemma rule_assets (path : string) :
  rule_matches "^/assets/(\d+)" path = true
  <-> exists digits,
        is_path ("/assets/" +:+ digits) path
        /\ digits <> "" /\ all_chars is_digit digits = true.
Proof.
  rewrite (rule_matches_lits "^/assets/(\d+)" "/assets/"
             (Seq (Seq (Plus Digit) Eps) Eps) path eq_refl).
  split.
  - intros (s & d & Hpath & -> & Hr). exists d. split; [done|].
    rewrite !matches_Seq_Eps_r in Hr.
    by apply (matches_Plus_class Digit is_digit) in Hr.
  - intros (d & Hpath & Hne & Hd). exists ("/assets/" +:+ d), d.
    split; [done|]. split; [done|].
    rewrite !matches_Seq_Eps_r. by apply (matches_Plus_class Digit is_digit).
Qed.

Lemma rule_upload (path : string) :
  rule_matches "^/upload/(?P<filename>.*)" path = true
  <-> exists filename,
        is_path ("/upload/" +:+ filename) path /\ all_chars is_any filename = true.
Proof.
  rewrite (rule_matches_lits "^/upload/(?P<filename>.*)" "/upload/"
             (Seq (Seq (Star AnyChar) Eps) Eps) path eq_refl).
  split.
  - intros (s & f & Hpath & -> & Hr). exists f. split; [done|].
    rewrite !matches_Seq_Eps_r in Hr.
    by rewrite (matches_Star_class AnyChar is_any) in Hr.
  - intros (f & Hpath & Hf). exists ("/upload/" +:+ f), f.
    split; [done|]. split; [done|].
    rewrite !matches_Seq_Eps_r. by rewrite (matches_Star_class AnyChar is_any).
Qed.

End RouteFacts.

Section ChompFacts.

Import Re.

Lemma all_chars_app (p : ascii -> bool) (s1 s2 : string) :
  all_chars p (s1 +:+ s2) = (all_chars p s1 && all_chars p s2)%bool.
Proof.
  induction s1 as [|c s1 IH]; [done|].
  rewrite append_cons. simpl. rewrite IH. by rewrite andb_assoc.
Qed.

Lemma all_chars_impl (p q : ascii -> bool) (s : string) :
  (forall c, p c = true -> q c = true) ->
  all_chars p s = true -> all_chars q s = true.
Proof.
  intros Hpq. induction s as [|c s IH]; simpl; [done|].
  intros [Hc Hs]%andb_true_iff. rewrite (Hpq c Hc). auto.
Qed.

Lemma is_digit_is_any (c : ascii) : is_digit c = true -> is_any c = true.
Proof.
  unfold is_digit, is_any. intros [H1 H2]%andb_true_iff.
  apply Nat.leb_le in H1. destruct (Ascii.eqb_spec c newline) as [->|]; [|done].
  vm_compute in H1. lia.
Qed.

Lemma chomp_plain (s : string) : all_chars is_any s = true -> chomp s = s.
Proof.
  induction s as [|c s IH]; [done|]. simpl.
  intros [Hc Hs]%andb_true_iff. destruct s as [|c' s'].
  - unfold is_any in Hc. apply negb_true_iff in Hc. by rewrite Hc.
  - by rewrite (IH Hs).
Qed.

Lemma chomp_newline (s : string) : chomp (s +:+ String newline "") = s.
Proof.
  induction s as [|c s IH]; [done|].
  rewrite append_cons. simpl. rewrite IH.
  destruct s; done.
Qed.

Lemma is_path_chomp_self (path : string) : is_path (chomp path) path.
Proof.
  unfold is_path. induction path as [|c path IH]; [by left|].
  simpl. destruct path as [|c' path'].
  - destruct (Ascii.eqb_spec c newline) as [->|]; [by right | by left].
  - destruct IH as [IH|IH]; [left | right].
    + by rewrite <- IH.
    + rewrite append_cons. by rewrite <- IH.
Qed.

(** A path is a newline-free [s], give or take a final newline, exactly
    when [s] is the path without its final newline. *)
Lemma is_path_chomp (s path : string) :
  all_chars is_any s = true -> is_path s path <-> chomp path = s.
Proof.
  intros Hs. split.
  - intros [-> | ->]; [by apply chomp_plain | apply chomp_newline].
  - intros <-. apply is_path_chomp_self.
Qed.

Lemma chomp_config (path : string) :
  rule_matches "^/config/?" path = true
  <-> chomp path = "/config" \/ chomp path = "/config/".
Proof. rewrite rule_config, !is_path_chomp; done. Qed.

Lemma chomp_pictures (path : string) :
  rule_matches "^/pictures/?" path = true
  <-> chomp path = "/pictures" \/ chomp path = "/pictures/".
Proof. rewrite rule_pictures, !is_path_chomp; done. Qed.

Lemma chomp_ws (path : string) :
  rule_matches "^/ws/server?" path = true
  <-> chomp path = "/ws/serve" \/ chomp path = "/ws/server".
Proof. rewrite rule_ws, !is_path_chomp; done. Qed.

Lemma chomp_snap (path : string) :
  rule_matches "^/snap/?" path = true
  <-> chomp path = "/snap" \/ chomp path = "/snap/".
Proof. rewrite rule_snap, !is_path_chomp; done. Qed.

Lemma chomp_auth (path : string) :
  rule_matches "^/auth/login/?" path = true
  <-> chomp path = "/auth/login" \/ chomp path = "/auth/login/".
Proof. rewrite rule_auth, !is_path_chomp; done. Qed.

Lemma chomp_picture (path : string) :
  rule_matches "^/pictures/(\d+)?" path = true
  <-> exists digits,
        chomp path = "/pictures/" +:+ digits /\ all_chars is_digit digits = true.
Proof.
  rewrite rule_picture. split; intros (d & Hp & Hd); exists d; (split; [|done]).
  - apply is_path_chomp in Hp; [done|].
    rewrite all_chars_app. apply andb_true_iff. split; [done|].
    by apply (all_chars_impl is_digit), Hd; apply is_digit_is_any.
  - rewrite <- Hp. apply is_path_chomp_self.
Qed.

Lemma chomp_assets (path : string) :
  rule_matches "^/assets/(\d+)" path = true
  <-> exists digits,
        chomp path = "/assets/" +:+ digits
        /\ digits <> "" /\ all_chars is_digit digits = true.
Proof.
  rewrite rule_assets. split; intros (d & Hp & Hne & Hd); exists d;
    (split; [|done]).
  - apply is_path_chomp in Hp; [done|].
    rewrite all_chars_app. apply andb_true_iff. split; [done|].
    by apply (all_chars_impl is_digit), Hd; apply is_digit_is_any.
  - rewrite <- Hp. apply is_path_chomp_self.
Qed.

Lemma chomp_upload (path : string) :
  rule_matches "^/upload/(?P<filename>.*)" path = true
  <-> exists filename,
        chomp path = "/upload/" +:+ filename /\ all_chars is_any filename = true.
Proof.
  rewrite rule_upload. split; intros (f & Hp & Hf); exists f; (split; [|done]).
  - apply is_path_chomp in Hp; [done|].
    rewrite all_chars_app. apply andb_true_iff. by split.
  - rewrite <- Hp. apply is_path_chomp_self.
Qed.

End ChompFacts.

Section RoutingTable.

Import Re.

Lemma find_rule_unfold (path : string) :
  find_rule path
  = if rule_matches "^/config/?" path then Some ("^/config/?", Some ConfigHandler)
    else if rule_matches "^/pictures/?" path
    then Some ("^/pictures/?", Some PicturesHandler)
    else if rule_matches "^/pictures/(\d+)?" path
    then Some ("^/pictures/(\d+)?", Some PictureHandler)
    else if rule_matches "^/assets/(\d+)" path
    then Some ("^/assets/(\d+)", Some AssetsHandler)
    else if rule_matches "^/upload/(?P<filename>.*)" path
    then Some ("^/upload/(?P<filename>.*)", None)
    else if rule_matches "^/ws/server?" path
    then Some ("^/ws/server?", Some ServerWebSocketHandler)
    else if rule_matches "^/snap/?" path then Some ("^/snap/?", Some SnapHandler)
    else if rule_matches "^/auth/login/?" path
    then Some ("^/auth/login/?", Some AuthLoginHandler)
    else None.
Proof.
  unfold find_rule, matching, handlers. cbn [List.filter fst].
  repeat match goal with
    | |- context [rule_matches ?p path] =>
        destruct (rule_matches p path); cbn [head]; try reflexivity
    end.
Qed.

(** Turns a matching rule into what it says of the path. *)
Ltac rule_facts H :=
  first
    [ apply chomp_config in H
    | apply chomp_pictures in H
    | apply chomp_picture in H
    | apply chomp_assets in H
    | apply chomp_upload in H
    | apply chomp_ws in H
    | apply chomp_snap in H
    | apply chomp_auth in H ].

(** Closes a goal with two different spellings of one string among the
    hypotheses. *)
Ltac strings_differ :=
  exfalso;
  repeat match goal with
    | H : _ \/ _ |- _ => destruct H as [H|H]
    | H : exists _, _ |- _ => destruct H as [? H]
    | H : _ /\ _ |- _ => destruct H as [H ?]
    end;
  match goal with
  | H1 : chomp ?path = _, H2 : chomp ?path = _ |- _ =>
      rewrite H1 in H2; rewrite ?append_cons, ?append_nil_l in H2;
      discriminate H2
  end.

(** No rule before the upload rule matches a path another rule matches,
    and so on down the table. *)
Ltac no_other_rule p :=
  match goal with
  | path : string |- _ =>
      let Hm := fresh "Hm" in
      destruct (rule_matches p path) eqn:Hm; [rule_facts Hm; strings_differ|]
  end.

(** Splits on whether the rule with pattern [p] matches, in [H]. *)
Ltac split_rule H p :=
  match type of H with
  | context [rule_matches p ?path] =>
      let Hm := fresh "Hm" in
      destruct (rule_matches p path) eqn:Hm; cbv iota in H; try discriminate H
  end.

(** X17: the websocket endpoint.  The question mark of its pattern applies to
    the last letter only: the websocket handler is selected for [/ws/serve]
    and for [/ws/server], and for no other path, [/ws/server/] included. *)
Theorem route_websocket (path : string) :
  find_rule path = Some ("^/ws/server?", Some ServerWebSocketHandler)
  <-> chomp path = "/ws/serve" \/ chomp path = "/ws/server".
Proof.
  split.
  - intros Hr. rewrite find_rule_unfold in Hr.
    split_rule Hr "^/config/?". split_rule Hr "^/pictures/?".
    split_rule Hr "^/pictures/(\d+)?". split_rule Hr "^/assets/(\d+)".
    split_rule Hr "^/upload/(?P<filename>.*)". split_rule Hr "^/ws/server?".
    + by apply chomp_ws.
    + split_rule Hr "^/snap/?". split_rule Hr "^/auth/login/?".
  - intros Hs. rewrite find_rule_unfold.
    no_other_rule "^/config/?".
    no_other_rule "^/pictures/?".
    no_other_rule "^/pictures/(\d+)?".
    no_other_rule "^/assets/(\d+)".
    no_other_rule "^/upload/(?P<filename>.*)".
    apply chomp_ws in Hs. by rewrite Hs.
Qed.

(** X18: pictures.  [/pictures] and [/pictures/] go to the list handler, which
    comes first in the table; the handler of one picture, whose pattern
    makes the number optional, is selected only for [/pictures/] followed
    by at least one digit and nothing else. *)
Theorem route_pictures (path : string) :
  (find_rule path = Some ("^/pictures/?", Some PicturesHandler)
   <-> chomp path = "/pictures" \/ chomp path = "/pictures/")
  /\ (find_rule path = Some ("^/pictures/(\d+)?", Some PictureHandler)
      <-> exists digits,
            chomp path = "/pictures/" +:+ digits
            /\ digits <> "" /\ all_chars is_digit digits = true).
Proof.
  split; split.
  - intros Hr. rewrite find_rule_unfold in Hr.
    split_rule Hr "^/config/?". split_rule Hr "^/pictures/?".
    + by apply chomp_pictures.
    + split_rule Hr "^/pictures/(\d+)?". split_rule Hr "^/assets/(\d+)".
      split_rule Hr "^/upload/(?P<filename>.*)". split_rule Hr "^/ws/server?".
      split_rule Hr "^/snap/?". split_rule Hr "^/auth/login/?".
  - intros Hs. rewrite find_rule_unfold.
    no_other_rule "^/config/?".
    apply chomp_pictures in Hs. by rewrite Hs.
  - intros Hr. rewrite find_rule_unfold in Hr.
    split_rule Hr "^/config/?". split_rule Hr "^/pictures/?".
    split_rule Hr "^/pictures/(\d+)?".
    + apply chomp_picture in Hm1 as (d & Hd & Hall). exists d.
      split; [done|]. split; [|done]. intros ->.
      assert (rule_matches "^/pictures/?" path = true) as Hyes.
      { apply chomp_pictures. by right. }
      congruence.
    + split_rule Hr "^/assets/(\d+)".
      split_rule Hr "^/upload/(?P<filename>.*)". split_rule Hr "^/ws/server?".
      split_rule Hr "^/snap/?". split_rule Hr "^/auth/login/?".
  - intros (d & Hs & Hne & Hall). rewrite find_rule_unfold.
    no_other_rule "^/config/?".
    destruct (rule_matches "^/pictures/?" path) eqn:Hm2.
    { exfalso. apply chomp_pictures in Hm2 as [Hm2|Hm2];
        rewrite Hs in Hm2; rewrite ?append_cons, ?append_nil_l in Hm2.
      - discriminate Hm2.
      - injection Hm2 as Hm2. done. }
    assert (rule_matches "^/pictures/(\d+)?" path = true) as ->; [|done].
    apply chomp_picture. by exists d.
Qed.

(** X19: uploads.  Every path that begins with [/upload/] selects the rule of
    the table whose handler is [None], and no other path does. *)
Theorem route_upload_has_no_handler (path : string) :
  find_rule path = Some ("^/upload/(?P<filename>.*)", None)
  <-> exists filename,
        chomp path = "/upload/" +:+ filename /\ all_chars is_any filename = true.
Proof.
  split.
  - intros Hr. rewrite find_rule_unfold in Hr.
    split_rule Hr "^/config/?". split_rule Hr "^/pictures/?".
    split_rule Hr "^/pictures/(\d+)?". split_rule Hr "^/assets/(\d+)".
    split_rule Hr "^/upload/(?P<filename>.*)".
    + by apply chomp_upload.
    + split_rule Hr "^/ws/server?".
      split_rule Hr "^/snap/?". split_rule Hr "^/auth/login/?".
  - intros Hs. rewrite find_rule_unfold.
    no_other_rule "^/config/?".
    no_other_rule "^/pictures/?".
    no_other_rule "^/pictures/(\d+)?".
    no_other_rule "^/assets/(\d+)".
    apply chomp_upload in Hs. by rewrite Hs.
Qed.

(** X20: the endpoints with an optional final slash: the configuration, the
    snap and the login handler are each selected for their path with or
    without the slash, and the asset handler for [/assets/] followed by at
    least one digit. *)
Theorem route_plain_endpoints (path : string) :
  (find_rule path = Some ("^/config/?", Some ConfigHandler)
   <-> chomp path = "/config" \/ chomp path = "/config/")
  /\ (find_rule path = Some ("^/snap/?", Some SnapHandler)
      <-> chomp path = "/snap" \/ chomp path = "/snap/")
  /\ (find_rule path = Some ("^/auth/login/?", Some AuthLoginHandler)
      <-> chomp path = "/auth/login" \/ chomp path = "/auth/login/")
  /\ (find_rule path = Some ("^/assets/(\d+)", Some AssetsHandler)
      <-> exists digits,
            chomp path = "/assets/" +:+ digits
            /\ digits <> "" /\ all_chars is_digit digits = true).
Proof.
  split; [|split; [|split]]; split.
  - intros Hr. rewrite find_rule_unfold in Hr.
    split_rule Hr "^/config/?"; [by apply chomp_config|].
    split_rule Hr "^/pictures/?".
    split_rule Hr "^/pictures/(\d+)?". split_rule Hr "^/assets/(\d+)".
    split_rule Hr "^/upload/(?P<filename>.*)". split_rule Hr "^/ws/server?".
    split_rule Hr "^/snap/?". split_rule Hr "^/auth/login/?".
  - intros Hs. rewrite find_rule_unfold.
    apply chomp_config in Hs. by rewrite Hs.
  - intros Hr. rewrite find_rule_unfold in Hr.
    split_rule Hr "^/config/?". split_rule Hr "^/pictures/?".
    split_rule Hr "^/pictures/(\d+)?". split_rule Hr "^/assets/(\d+)".
    split_rule Hr "^/upload/(?P<filename>.*)". split_rule Hr "^/ws/server?".
    split_rule Hr "^/snap/?"; [by apply chomp_snap|].
    split_rule Hr "^/auth/login/?".
  - intros Hs. rewrite find_rule_unfold.
    no_other_rule "^/config/?".
    no_other_rule "^/pictures/?".
    no_other_rule "^/pictures/(\d+)?".
    no_other_rule "^/assets/(\d+)".
    no_other_rule "^/upload/(?P<filename>.*)".
    no_other_rule "^/ws/server?".
    apply chomp_snap in Hs. by rewrite Hs.
  - intros Hr. rewrite find_rule_unfold in Hr.
    split_rule Hr "^/config/?". split_rule Hr "^/pictures/?".
    split_rule Hr "^/pictures/(\d+)?". split_rule Hr "^/assets/(\d+)".
    split_rule Hr "^/upload/(?P<filename>.*)". split_rule Hr "^/ws/server?".
    split_rule Hr "^/snap/?".
    split_rule Hr "^/auth/login/?". by apply chomp_auth.
  - intros Hs. rewrite find_rule_unfold.
    no_other_rule "^/config/?".
    no_other_rule "^/pictures/?".
    no_other_rule "^/pictures/(\d+)?".
    no_other_rule "^/assets/(\d+)".
    no_other_rule "^/upload/(?P<filename>.*)".
    no_other_rule "^/ws/server?".
    no_other_rule "^/snap/?".
    apply chomp_auth in Hs. by rewrite Hs.
  - intros Hr. rewrite find_rule_unfold in Hr.
    split_rule Hr "^/config/?". split_rule Hr "^/pictures/?".
    split_rule Hr "^/pictures/(\d+)?".
    split_rule Hr "^/assets/(\d+)"; [by apply chomp_assets|].
    split_rule Hr "^/upload/(?P<filename>.*)". split_rule Hr "^/ws/server?".
    split_rule Hr "^/snap/?". split_rule Hr "^/auth/login/?".
  - intros Hs. rewrite find_rule_unfold.
    no_other_rule "^/config/?".
    no_other_rule "^/pictures/?".
    no_other_rule "^/pictures/(\d+)?".
    apply chomp_assets in Hs. by rewrite Hs.
Qed.

Lemma filter_cons_app {A : Type} (f : A -> bool) (x : A) (l : list A) :
  List.filter f (x :: l) = (if f x then [x] else []) ++ List.filter f l.
Proof. simpl. by destruct (f x). Qed.

Lemma matching_unfold (path : string) :
  matching path
  = (if rule_matches "^/config/?" path
     then [("^/config/?", Some ConfigHandler)] else [])
    ++ (if rule_matches "^/pictures/?" path
        then [("^/pictures/?", Some PicturesHandler)] else [])
    ++ (if rule_matches "^/pictures/(\d+)?" path
        then [("^/pictures/(\d+)?", Some PictureHandler)] else [])
    ++ (if rule_matches "^/assets/(\d+)" path
        then [("^/assets/(\d+)", Some AssetsHandler)] else [])
    ++ (if rule_matches "^/upload/(?P<filename>.*)" path
        then [("^/upload/(?P<filename>.*)", None)] else [])
    ++ (if rule_matches "^/ws/server?" path
        then [("^/ws/server?", Some ServerWebSocketHandler)] else [])
    ++ (if rule_matches "^/snap/?" path
        then [("^/snap/?", Some SnapHandler)] else [])
    ++ (if rule_matches "^/auth/login/?" path
        then [("^/auth/login/?", Some AuthLoginHandler)] else []).
Proof.
  unfold matching, handlers. rewrite !filter_cons_app. cbn [fst List.filter].
  by rewrite app_nil_r.
Qed.

(** Two matching rules cannot both stand, unless the path is the one the
    hypothesis excludes. *)
Ltac clash :=
  match goal with
  | H1 : rule_matches _ ?path = true, H2 : rule_matches _ ?path = true |- _ =>
      exfalso; rule_facts H1; rule_facts H2;
      repeat match goal with
        | H : _ \/ _ |- _ => destruct H as [H|H]
        | H : exists _, _ |- _ => destruct H as [? H]
        | H : _ /\ _ |- _ => destruct H as [H ?]
        end;
      first
        [ match goal with
          | Hne : chomp path <> ?s, H : chomp path = ?s |- _ => exact (Hne H)
          end
        | match goal with
          | Ha : chomp path = _, Hb : chomp path = _ |- _ =>
              rewrite Ha in Hb; rewrite ?append_cons, ?append_nil_l in Hb;
              discriminate Hb
          end ]
  end.

Ltac next_rule p :=
  match goal with
  | |- context [rule_matches p ?path] =>
      let Hm := fresh "Hm" in
      destruct (rule_matches p path) eqn:Hm; try clash
  end.

(** X21: the order of the table matters for one path only.  Away from
    [/pictures/] at most one rule matches a path; [/pictures/] is matched
    by the rule of the list handler and by the rule of the single-picture
    handler, in this order, and by no other. *)
Theorem rules_overlap_only_at_pictures (path : string) :
  (chomp path = "/pictures/" ->
   matching path = [("^/pictures/?", Some PicturesHandler);
                    ("^/pictures/(\d+)?", Some PictureHandler)])
  /\ (chomp path <> "/pictures/" -> length (matching path) <= 1).
Proof.
  split.
  - intros Hs. rewrite matching_unfold.
    assert (rule_matches "^/pictures/?" path = true) as ->.
    { apply chomp_pictures. by right. }
    assert (rule_matches "^/pictures/(\d+)?" path = true) as ->.
    { apply chomp_picture. by exists "". }
    no_other_rule "^/config/?".
    no_other_rule "^/assets/(\d+)".
    no_other_rule "^/upload/(?P<filename>.*)".
    no_other_rule "^/ws/server?".
    no_other_rule "^/snap/?".
    no_other_rule "^/auth/login/?".
    reflexivity.
  - intros Hne. rewrite matching_unfold.
    next_rule "^/config/?"; next_rule "^/pictures/?";
      next_rule "^/pictures/(\d+)?"; next_rule "^/assets/(\d+)";
      next_rule "^/upload/(?P<filename>.*)"; next_rule "^/ws/server?";
      next_rule "^/snap/?"; next_rule "^/auth/login/?";
      simpl; lia.
Qed.

End RoutingTable.

(** * The further properties on concrete inputs *)

Lemma NoDup_demo_12 : NoDup [1; 2].
Proof.
  apply NoDup_cons. split; [|apply NoDup_singleton].
  intros Hin. apply list_elem_of_singleton in Hin. discriminate Hin.
Qed.

Lemma demo_12_all_open (x : WebSocket) :
  x ∈ websockets (Demo.server [1; 2] Demo.all_open) ->
  closed (Demo.server [1; 2] Demo.all_open) x = false.
Proof. intros _. reflexivity. Qed.

Lemma remove_websocket_quiet_and_idempotent_witness :
  NoDup (websockets (Demo.server [1; 2] Demo.all_open))
  /\ remove_websocket 1 (snd (remove_websocket 1 (Demo.server [1; 2] Demo.all_open)))
     = (Ok tt, snd (remove_websocket 1 (Demo.server [1; 2] Demo.all_open))).
Proof.
  split; [exact NoDup_demo_12|].
  pose proof (@remove_websocket_quiet_and_idempotent probe_camera 1
                (Demo.server [1; 2] Demo.all_open) NoDup_demo_12) as Hthm.
  cbv zeta in Hthm. destruct Hthm as (_ & _ & _ & _ & _ & Hagain). exact Hagain.
Defined.

Lemma add_then_remove_restores_registry_witness :
  (7 ∉ websockets (Demo.server [1; 2] Demo.all_open))
  /\ websockets (snd (remove_websocket 7
                        (snd (add_websocket 7 (Demo.server [1; 2] Demo.all_open)))))
     = [1; 2].
Proof.
  assert (7 ∉ websockets (Demo.server [1; 2] Demo.all_open)) as Hnew.
  { apply py_in_false. reflexivity. }
  split; [exact Hnew|].
  exact (@add_then_remove_restores_registry probe_camera 7
           (Demo.server [1; 2] Demo.all_open) Hnew).
Defined.

Lemma resubscribing_moves_to_the_end_witness :
  NoDup (websockets (Demo.server [1; 2] Demo.all_open))
  /\ (1 ∈ websockets (Demo.server [1; 2] Demo.all_open))
  /\ websockets (snd (add_websocket 1
                        (snd (remove_websocket 1 (Demo.server [1; 2] Demo.all_open)))))
     = py_remove 1 [1; 2] ++ [1]
  /\ delivered_to 1
       (trace (snd (add_websocket 1
                      (snd (remove_websocket 1 (Demo.server [1; 2] Demo.all_open))))))
     = delivered_to 1 (trace (Demo.server [1; 2] Demo.all_open))
       ++ [wire_schema false].
Proof.
  assert (1 ∈ websockets (Demo.server [1; 2] Demo.all_open)) as Hin.
  { apply py_in_true. reflexivity. }
  split; [exact NoDup_demo_12|]. split; [exact Hin|].
  pose proof (@resubscribing_moves_to_the_end probe_camera 1
                (Demo.server [1; 2] Demo.all_open) NoDup_demo_12 Hin eq_refl) as Hthm.
  cbv zeta in Hthm. destruct Hthm as (Hws & _ & Hdel & _).
  split; [exact Hws | exact Hdel].
Defined.

Lemma failed_initialisation_keeps_the_handler_witness :
  (7 ∉ websockets (Demo.server [1; 2] (Demo.only_closed 7)))
  /\ closed (Demo.server [1; 2] (Demo.only_closed 7)) 7 = true
  /\ fst (add_websocket 7 (Demo.server [1; 2] (Demo.only_closed 7)))
     = Raise WebSocketClosedError
  /\ websockets (snd (add_websocket 7 (Demo.server [1; 2] (Demo.only_closed 7))))
     = [1; 2] ++ [7].
Proof.
  assert (7 ∉ websockets (Demo.server [1; 2] (Demo.only_closed 7))) as Hnew.
  { apply py_in_false. reflexivity. }
  assert (forall x, x ∈ websockets (Demo.server [1; 2] (Demo.only_closed 7)) ->
                    closed (Demo.server [1; 2] (Demo.only_closed 7)) x = false)
    as Hopen.
  { intros x Hx. apply py_in_true in Hx. simpl in Hx.
    unfold Demo.server, Demo.only_closed. simpl.
    destruct (Nat.eqb_spec x 7) as [->|]; [discriminate Hx | reflexivity]. }
  split; [exact Hnew|]. split; [reflexivity|].
  pose proof (@failed_initialisation_keeps_the_handler probe_camera 7
                (Demo.server [1; 2] (Demo.only_closed 7)) (state_event true)
                Hnew eq_refl Hopen) as Hthm.
  cbv zeta in Hthm. destruct Hthm as (Hres & Hws & _).
  split; [exact Hres | exact Hws].
Defined.

Lemma late_subscriber_gets_the_probed_state_witness :
  qualifies Demo.usb_add = true
  /\ (7 ∉ websockets (Demo.server [1; 2] Demo.all_open))
  /\ get_connect (camera (Demo.server [1; 2] Demo.all_open)) = false
  /\ delivered_to 7
       (trace (snd (add_websocket 7
                      (snd (usb_device_event Demo.usb_add
                              (Demo.server [1; 2] Demo.all_open))))))
     = delivered_to 7 (trace (Demo.server [1; 2] Demo.all_open))
       ++ [wire_schema true].
Proof.
  assert (7 ∉ websockets (Demo.server [1; 2] Demo.all_open)) as Hnew.
  { apply py_in_false. reflexivity. }
  split; [reflexivity|]. split; [exact Hnew|]. split; [reflexivity|].
  pose proof (@late_subscriber_gets_the_probed_state probe_camera Demo.usb_add 7
                (Demo.server [1; 2] Demo.all_open) eq_refl Hnew eq_refl) as Hthm.
  cbv zeta in Hthm. destruct Hthm as (Hdel & _). exact Hdel.
Defined.

Lemma initialisation_precedes_broadcast_witness :
  qualifies Demo.usb_add = true
  /\ (7 ∉ websockets (Demo.server [1; 2] Demo.all_open))
  /\ delivered_to 7
       (trace (snd (usb_device_event Demo.usb_add
                      (snd (add_websocket 7 (Demo.server [1; 2] Demo.all_open))))))
     = delivered_to 7 (trace (Demo.server [1; 2] Demo.all_open))
       ++ [wire_schema false; wire_schema true]
  /\ wire_schema false <> wire_schema true.
Proof.
  assert (7 ∉ websockets (Demo.server [1; 2] Demo.all_open)) as Hnew.
  { apply py_in_false. reflexivity. }
  split; [reflexivity|]. split; [exact Hnew|].
  pose proof (@initialisation_precedes_broadcast probe_camera Demo.usb_add 7
                (Demo.server [1; 2] Demo.all_open) eq_refl Hnew NoDup_demo_12
                demo_12_all_open eq_refl) as Hthm.
  cbv zeta in Hthm. destruct Hthm as [Hdel Hdiff].
  split; [exact Hdel|]. apply Hdiff. discriminate.
Defined.

Lemma log_request_one_access_record_witness :
  has_key "log_function"
    (init_settings {| arg_debug := false; arg_stdout := true; arg_autoreload := false |})
  = false
  /\ exists method format names,
       log_request (Z.mul 1000)
         (init_settings {| arg_debug := false; arg_stdout := true;
                           arg_autoreload := false |})
         {| get_status := 404%Z; request_summary := "GET /nothing (127.0.0.1)";
            request_time := 2%Z; exc_name := Some "";
            action_name := Some "not_found" |}
       = [AccessLog method format
            (ArgInt 404%Z :: ArgStr "GET /nothing (127.0.0.1)"
             :: ArgFloat (1000 * 2)%Z :: map ArgStr names)]
       /\ (method = access_log_warning <-> (400 <= 404 < 500)%Z)
       /\ names = ["not_found"].
Proof.
  split; [reflexivity|].
  destruct (log_request_one_access_record Z (Z.mul 1000)
              (init_settings {| arg_debug := false; arg_stdout := true;
                                arg_autoreload := false |})
              {| get_status := 404%Z; request_summary := "GET /nothing (127.0.0.1)";
                 request_time := 2%Z; exc_name := Some "";
                 action_name := Some "not_found" |} eq_refl)
    as (method & format & names & Hrun & _ & Hwarn & _ & _ & Hnames & _).
  exists method, format, names. split; [exact Hrun|]. split; [exact Hwarn|exact Hnames].
Defined.

Lemma parse_args_levels_agree_witness :
  fst (parse_args {| arg_debug := true; arg_stdout := false; arg_autoreload := false |}
         None (fun _ => true)
         {| root_level := WARNING; root_handlers := []; opened := [] |})
  = Done tt
  /\ exists h,
       root_handlers
         (snd (parse_args {| arg_debug := true; arg_stdout := false;
                             arg_autoreload := false |}
                 None (fun _ => true)
                 {| root_level := WARNING; root_handlers := []; opened := [] |}))
       = [] ++ [h]
       /\ handler_level h = Some DEBUG
       /\ kind h = FileHandler "server.log" "a+".
Proof.
  split; [reflexivity|].
  pose proof (parse_args_levels_agree
                {| arg_debug := true; arg_stdout := false; arg_autoreload := false |}
                None (fun _ => true)
                {| root_level := WARNING; root_handlers := []; opened := [] |}
                eq_refl) as Hthm.
  cbv zeta in Hthm. destruct Hthm as (h & Hh & Hlevel & Hroot & _ & Hkind).
  exists h. split; [exact Hh|]. split; [|exact Hkind].
  rewrite Hlevel, Hroot. reflexivity.
Defined.

Lemma parse_args_adds_a_handler_each_time_witness :
  (arg_stdout {| arg_debug := false; arg_stdout := true; arg_autoreload := false |}
   = true
   \/ (fun _ : string => false) (log_path_of None) = true)
  /\ length
       (root_handlers
          (parse_args_times 2
             {| arg_debug := false; arg_stdout := true; arg_autoreload := false |}
             None (fun _ => false)
             {| root_level := WARNING; root_handlers := []; opened := [] |}))
     = 0 + 2.
Proof.
  split; [left; reflexivity|].
  apply (parse_args_adds_a_handler_each_time 2
           {| arg_debug := false; arg_stdout := true; arg_autoreload := false |}
           None (fun _ => false)
           {| root_level := WARNING; root_handlers := []; opened := [] |}).
  left. reflexivity.
Defined.

Lemma demo_makedirs_creates (fs : list string) (p : string) (fs' : list string) :
  DemoFS.makedirs fs p = Some fs' -> DemoFS.path_exists fs' p = true.
Proof.
  unfold DemoFS.makedirs, DemoFS.path_exists.
  destruct (String.eqb p ""); [discriminate|]. intros [= <-].
  simpl. by rewrite String.eqb_refl.
Qed.

Lemma demo_makedirs_keeps (fs : list string) (p : string) (fs' : list string)
    (q : string) :
  DemoFS.makedirs fs p = Some fs' ->
  DemoFS.path_exists fs q = true -> DemoFS.path_exists fs' q = true.
Proof.
  unfold DemoFS.makedirs, DemoFS.path_exists.
  destruct (String.eqb p ""); [discriminate|]. intros [= <-] Hq.
  simpl. rewrite Hq. apply orb_true_r.
Qed.

Lemma demo_load_config :
  load_config DemoFS.path_exists DemoFS.makedirs DemoFS.read_conf
    DemoFS.server_settings []
  = (Done {| pictures_folder := "pictures"; thumbnails_folder := "thumbnails";
             external_folder := "/mnt/usb"; confs := DemoFS.read_conf "server.json";
             pictures_path := "/srv/snapbox/pictures";
             thumbnails_path := "/srv/snapbox/thumbnails";
             external_path := "/mnt/usb" |},
     ["/mnt/usb"; "/srv/snapbox/thumbnails"; "/srv/snapbox/pictures"]).
Proof. vm_compute. reflexivity. Qed.

Lemma load_config_makes_the_directories_witness :
  load_config DemoFS.path_exists DemoFS.makedirs DemoFS.read_conf
    DemoFS.server_settings []
  = (Done {| pictures_folder := "pictures"; thumbnails_folder := "thumbnails";
             external_folder := "/mnt/usb"; confs := DemoFS.read_conf "server.json";
             pictures_path := "/srv/snapbox/pictures";
             thumbnails_path := "/srv/snapbox/thumbnails";
             external_path := "/mnt/usb" |},
     ["/mnt/usb"; "/srv/snapbox/thumbnails"; "/srv/snapbox/pictures"])
  /\ DemoFS.path_exists
       ["/mnt/usb"; "/srv/snapbox/thumbnails"; "/srv/snapbox/pictures"]
       "/srv/snapbox/pictures" = true.
Proof.
  split; [exact demo_load_config|].
  pose proof (load_config_makes_the_directories (list string) DemoFS.path_exists
                DemoFS.makedirs DemoFS.read_conf demo_makedirs_creates
                demo_makedirs_keeps DemoFS.server_settings [] _ _ demo_load_config)
    as Hthm.
  destruct Hthm as (Hpic & _). exact Hpic.
Defined.

Lemma load_config_again_creates_nothing_witness :
  load_config DemoFS.path_exists DemoFS.makedirs DemoFS.read_conf
    DemoFS.server_settings []
  = (Done {| pictures_folder := "pictures"; thumbnails_folder := "thumbnails";
             external_folder := "/mnt/usb"; confs := DemoFS.read_conf "server.json";
             pictures_path := "/srv/snapbox/pictures";
             thumbnails_path := "/srv/snapbox/thumbnails";
             external_path := "/mnt/usb" |},
     ["/mnt/usb"; "/srv/snapbox/thumbnails"; "/srv/snapbox/pictures"])
  /\ load_config DemoFS.path_exists DemoFS.makedirs DemoFS.read_conf
       DemoFS.server_settings
       ["/mnt/usb"; "/srv/snapbox/thumbnails"; "/srv/snapbox/pictures"]
     = (Done {| pictures_folder := "pictures"; thumbnails_folder := "thumbnails";
                external_folder := "/mnt/usb"; confs := DemoFS.read_conf "server.json";
                pictures_path := "/srv/snapbox/pictures";
                thumbnails_path := "/srv/snapbox/thumbnails";
                external_path := "/mnt/usb" |},
        ["/mnt/usb"; "/srv/snapbox/thumbnails"; "/srv/snapbox/pictures"]).
Proof.
  split; [exact demo_load_config|].
  exact (load_config_again_creates_nothing (list string) DemoFS.path_exists
           DemoFS.makedirs DemoFS.read_conf demo_makedirs_creates
           demo_makedirs_keeps DemoFS.server_settings [] _ _ demo_load_config).
Defined.

Lemma load_config_missing_key_witness :
  ("server_conf"
   ∈ ["pictures_folder"; "thumbnails_folder"; "external_folder"; "server_conf"])
  /\ (delete "server_conf" DemoFS.server_settings !! "server_conf" = None)
  /\ exists k,
       delete "server_conf" DemoFS.server_settings !! k = None
       /\ load_config DemoFS.path_exists DemoFS.makedirs DemoFS.read_conf
            (delete "server_conf" DemoFS.server_settings) ["/tmp"]
          = (KeyError k, ["/tmp"]).
Proof.
  assert ("server_conf"
          ∈ ["pictures_folder"; "thumbnails_folder"; "external_folder"; "server_conf"])
    as Hkey.
  { do 3 apply list_elem_of_further. apply list_elem_of_here. }
  assert (delete "server_conf" DemoFS.server_settings !! "server_conf" = None)
    as Hnone by apply lookup_delete_eq.
  split; [exact Hkey|]. split; [exact Hnone|].
  exact (load_config_missing_key (list string) DemoFS.path_exists DemoFS.makedirs
           DemoFS.read_conf (delete "server_conf" DemoFS.server_settings) ["/tmp"]
           "server_conf" Hkey Hnone).
Defined.
